(** * Text layout of the ERP training-guide generator

    A shallow embedding of the two text primitives of
    [generate_training_pdf.py], [ERPTrainingDoc.draw_text] and
    [ERPTrainingDoc.draw_wrapped_text], together with the part of the
    reportlab canvas they drive, and the properties of the greedy
    line-wrapping layout.

    Numbers.  Coordinates, widths, font sizes and leadings are Python
    numbers; they are modelled as exact integers ([Z], Python's [int],
    in any fixed unit).  The layout only subtracts and compares them.
    Comparisons of finite floats are comparisons of the numbers they
    stand for; subtraction of floats rounds, so the cursor arithmetic
    is also modelled over an arbitrary number type ([Numeric]) and
    run on binary64 floats.

    Text.  A Python [str] is a sequence of Unicode code points. *)

From Stdlib Require Import String Ascii.
From Stdlib Require Import ZArith NArith List Bool Lia.
From Stdlib Require Import Floats.
From Equations Require Import Equations.
From Equations.Prop Require Import Logic.
Import ListNotations.

Open Scope Z_scope.

(* ================================================================== *)
(** ** Python strings *)

Module Py.

Definition char := N.
Definition str := list char.

(** A literal: the code points of an ASCII string. *)
Definition lit (s : string) : str :=
  List.map N_of_ascii (list_ascii_of_string s).

(** [ch.isspace()] for one code point: the characters [str.split()]
    treats as separators. *)
Definition isspace (ch : char) : bool :=
  ((9 <=? ch) && (ch <=? 13) ||
   (28 <=? ch) && (ch <=? 32) ||
   (ch =? 0x85) || (ch =? 0xA0) || (ch =? 0x1680) ||
   (0x2000 <=? ch) && (ch <=? 0x200A) ||
   (ch =? 0x2028) || (ch =? 0x2029) || (ch =? 0x202F) ||
   (ch =? 0x205F) || (ch =? 0x3000))%N.

(** The character [" "]. *)
Definition SPACE : char := 32%N.

(** Truth value of a string: [bool(s)] is [len(s) != 0]. *)
Definition truthy (s : str) : bool :=
  match s with
  | [] => false
  | _ :: _ => true
  end.

(** [s.split()]: the maximal runs of non-whitespace characters, in
    order.  [split_from w s] scans [s] with the word [w] in progress. *)
Definition flush (w : str) : list str :=
  if truthy w then [w] else [].

Fixpoint split_from (w : str) (s : str) : list str :=
  match s with
  | [] => flush w
  | ch :: rest =>
      if isspace ch then flush w ++ split_from [] rest
      else split_from (w ++ [ch]) rest
  end.

Definition split (s : str) : list str := split_from [] s.

(** [" ".join(ws)]. *)
Fixpoint join_space (ws : list str) : str :=
  match ws with
  | [] => []
  | w :: rest =>
      match rest with
      | [] => w
      | _ :: _ => w ++ SPACE :: join_space rest
      end
  end.

(** [s[:-4]]: all but the last four characters (empty when [s] has
    fewer than four). *)
Definition drop_last4 (s : str) : str :=
  firstn (length s - 4) s.

(** What [split] produces: non-empty strings without whitespace. *)
Definition no_space (w : str) : Prop :=
  Forall (fun ch => isspace ch = false) w.

Definition all_space (s : str) : Prop :=
  Forall (fun ch => isspace ch = true) s.

Definition is_word (w : str) : Prop :=
  w <> [] /\ no_space w.

End Py.

(* ================================================================== *)
(** ** The reportlab canvas, as far as the text primitives use it *)

Module Canvas.

Definition Color := N.

(** The graphics state that [saveState]/[restoreState] stack. *)
Record GState := mkGState {
  font_name : string;
  font_size : Z;
  fill_color : Color
}.

Inductive Anchor := AnchorLeft | AnchorCentre | AnchorRight.

(** One string placed on the page. *)
Record Op := mkOp {
  op_anchor : Anchor;
  op_x : Z;
  op_y : Z;
  op_text : Py.str;
  op_state : GState
}.

Record t := mk {
  state : GState;
  saved : list GState;
  page : list Op
}.

Definition saveState (c : t) : t :=
  mk (state c) (state c :: saved c) (page c).

Definition restoreState (c : t) : t :=
  match saved c with
  | [] => c
  | g :: s => mk g s (page c)
  end.

Definition setFont (c : t) (font : string) (size : Z) : t :=
  mk (mkGState font size (fill_color (state c))) (saved c) (page c).

Definition setFillColor (c : t) (color : Color) : t :=
  mk (mkGState (font_name (state c)) (font_size (state c)) color)
     (saved c) (page c).

Definition place (a : Anchor) (c : t) (x y : Z) (text : Py.str) : t :=
  mk (state c) (saved c) (page c ++ [mkOp a x y text (state c)]).

Definition drawString := place AnchorLeft.
Definition drawCentredString := place AnchorCentre.
Definition drawRightString := place AnchorRight.

End Canvas.

(** [HexColor('#2D3748')] *)
Definition CHARCOAL : Canvas.Color := 0x2D3748%N.

(* ================================================================== *)
(** ** The document builder: [class ERPTrainingDoc] *)

Module ERPTrainingDoc.

(** [self]: the canvas, the page counter and the page cursor. *)
Record t := mk {
  c : Canvas.t;
  page_num : Z;
  y : Z
}.

Definition with_c (self : t) (c' : Canvas.t) : t :=
  mk c' (page_num self) (y self).

(** ['...'] *)
Definition ELLIPSIS : Py.str := Py.lit "...".

(** Truth value of the optional [max_width] of [draw_text]: [None]
    and [0] are false. *)
Definition truthy_width (max_width : option Z) : bool :=
  match max_width with
  | None => false
  | Some w => negb (w =? 0)
  end.

Section Primitives.

(** [canvas.stringWidth(text, font, size)], reportlab's font
    metric. *)
Variable stringWidth : Py.str -> string -> Z -> Z.

(** *** [draw_text] *)

(** The test of the truncation loop:
    [stringWidth(text, font, size) > max_width and len(text) > 3]. *)
Definition too_wide (font : string) (size max_width : Z)
    (text : Py.str) : bool :=
  (max_width <? stringWidth text font size) && (3 <? length text)%nat.

(** Its body: [text = text[:-4] + '...']. *)
Definition shorten (text : Py.str) : Py.str :=
  Py.drop_last4 text ++ ELLIPSIS.

(** The [while] loop. *)
Equations? truncate (font : string) (size max_width : Z)
    (text : Py.str) : Py.str by wf (length text) lt :=
  truncate font size max_width text
    with inspect (too_wide font size max_width text) => {
    | exist _ true _ => truncate font size max_width (shorten text)
    | exist _ false _ => text
    }.
Proof.
  unfold too_wide in e.
  apply andb_true_iff in e as [_ Hlen%Nat.ltb_lt].
  unfold shorten, Py.drop_last4.
  rewrite length_app, firstn_length_le by lia.
  change (length ELLIPSIS) with 3%nat. lia.
Qed.

Definition draw_text (self : t) (text : Py.str) (x y : Z)
    (font : string) (size : Z) (color : Canvas.Color)
    (align : string) (max_width : option Z) : t :=
  let c := Canvas.saveState (c self) in
  let c := Canvas.setFont c font size in
  let c := Canvas.setFillColor c color in
  let text :=
    match max_width with
    | Some w =>
        if truthy_width max_width then truncate font size w text
        else text
    | None => text
    end in
  let c :=
    if String.eqb align "center" then Canvas.drawCentredString c x y text
    else if String.eqb align "right" then Canvas.drawRightString c x y text
    else Canvas.drawString c x y text in
  with_c self (Canvas.restoreState c).

(** *** [draw_wrapped_text] *)

(** One round of the loop over [words]; the state is
    [(lines, current_line)]. *)
Definition wrap_word (font : string) (size max_width : Z)
    (st : list Py.str * Py.str) (word : Py.str)
    : list Py.str * Py.str :=
  let '(lines, current_line) := st in
  let test :=
    current_line ++ (if Py.truthy current_line then [Py.SPACE] else [])
                 ++ word in
  if stringWidth test font size <=? max_width then (lines, test)
  else
    ((if Py.truthy current_line then lines ++ [current_line] else lines),
     word).

(** The list [lines] after the loop and the final [append]. *)
Definition wrap_lines (text : Py.str) (max_width : Z)
    (font : string) (size : Z) : list Py.str :=
  let words := Py.split text in
  let '(lines, current_line) :=
    fold_left (wrap_word font size max_width) words ([], []) in
  if Py.truthy current_line then lines ++ [current_line] else lines.

(** One round of the loop over [lines]; the state is the canvas and
    [y]. *)
Definition draw_line (x leading : Z) (st : Canvas.t * Z)
    (line : Py.str) : Canvas.t * Z :=
  let '(c, y) := st in
  (Canvas.drawString c x y line, y - leading).

Definition draw_wrapped_text (self : t) (text : Py.str) (x y : Z)
    (max_width : Z) (font : string) (size : Z) (color : Canvas.Color)
    (leading : Z) : t * Z :=
  let c := Canvas.saveState (c self) in
  let c := Canvas.setFont c font size in
  let c := Canvas.setFillColor c color in
  let lines := wrap_lines text max_width font size in
  let '(c, y) := fold_left (draw_line x leading) lines (c, y) in
  (with_c self (Canvas.restoreState c), y).

(** What one call put on the page: the strings placed on the
    canvas of [after] beyond those already on the canvas of
    [before]. *)
Definition emitted (before after : t) : list Canvas.Op :=
  skipn (length (Canvas.page (c before))) (Canvas.page (c after)).

(** The lines [draw_wrapped_text] draws, and the position it
    returns. *)
Definition output_lines (self : t) (text : Py.str) (x y : Z)
    (max_width : Z) (font : string) (size : Z) (color : Canvas.Color)
    (leading : Z) : list Py.str :=
  map Canvas.op_text
    (emitted self
       (fst (draw_wrapped_text self text x y max_width font size color
               leading))).

Definition end_y (self : t) (text : Py.str) (x y : Z)
    (max_width : Z) (font : string) (size : Z) (color : Canvas.Color)
    (leading : Z) : Z :=
  snd (draw_wrapped_text self text x y max_width font size color leading).

(** *** Vocabulary of the layout properties *)

(** A line fits: [stringWidth(line, font, size) <= max_width]. *)
Definition fits (font : string) (size max_width : Z)
    (line : Py.str) : Prop :=
  stringWidth line font size <= max_width.

(** A group of words may share a line: alone, or fitting when
    joined. *)
Definition group_ok (font : string) (size max_width : Z)
    (g : list Py.str) : Prop :=
  (1 < length g)%nat -> fits font size max_width (Py.join_space g).

(** [lines] lays [words] out in [groups]: consecutive non-empty
    groups of the words, one joined group per line. *)
Definition grouping (font : string) (size max_width : Z)
    (words lines : list Py.str) (groups : list (list Py.str)) : Prop :=
  lines = map Py.join_space groups /\
  concat groups = words /\
  Forall (fun g => g <> []) groups /\
  Forall (group_ok font size max_width) groups.

(** The loop state [(lines, current_line)] of [draw_wrapped_text]
    after the words [seen]: committed groups [gs] and the group [g]
    in progress. *)
Record layout (font : string) (size max_width : Z)
    (seen : list Py.str) (st : list Py.str * Py.str)
    (gs : list (list Py.str)) (g : list Py.str) : Prop := {
  lay_lines : fst st = map Py.join_space gs;
  lay_current : snd st = Py.join_space g;
  lay_seen : concat gs ++ g = seen;
  lay_nonempty : Forall (fun g => g <> []) gs;
  lay_committed : Forall (group_ok font size max_width) gs;
  lay_progress : group_ok font size max_width g
}.

(** The strings a run of [drawString] calls places, one per line,
    each [leading] below the previous one. *)
Fixpoint placed (g : Canvas.GState) (x y leading : Z)
    (lines : list Py.str) : list Canvas.Op :=
  match lines with
  | [] => []
  | line :: rest =>
      Canvas.mkOp Canvas.AnchorLeft x y line g
        :: placed g x (y - leading) leading rest
  end.

(** A metric under which text put before a string never narrows
    it. *)
Definition widens (font : string) (size : Z) : Prop :=
  forall a b : Py.str,
    stringWidth b font size <= stringWidth (a ++ b) font size.

(** A metric under which a string is at least as wide as each of its
    parts. *)
Definition monotone (font : string) (size : Z) : Prop :=
  forall a b : Py.str,
    stringWidth a font size <= stringWidth (a ++ b) font size /\
    stringWidth b font size <= stringWidth (a ++ b) font size.

(** The number of rounds of the truncation loop of [draw_text]. *)
Definition rounds (text result : Py.str) (n : nat) : Prop :=
  result = Nat.iter n shorten text /\
  (n <= length text - 3)%nat /\
  length result = (length text - n)%nat.

End Primitives.

(** *** Page geometry and content elements *)

(** [MARGIN = 45] *)
Definition MARGIN : Z := 45.

(** [HexColor('#64748B')] and [HexColor('#2D4470')] *)
Definition SLATE : Canvas.Color := 0x64748B%N.
Definition NAVY_LIGHT : Canvas.Color := 0x2D4470%N.

(** The default [bullet_char], ["\u2022"]. *)
Definition BULLET : Py.str := [0x2022%N].

(** [self.y = y'] *)
Definition set_y (self : t) (y' : Z) : t :=
  mk (c self) (page_num self) y'.

(** [check_space]: whether [needed] units fit above the bottom
    margin. *)
Definition check_space (self : t) (needed : Z) : bool :=
  if y self - needed <? MARGIN + 20 then false else true.

Section Content.

Variable stringWidth : Py.str -> string -> Z -> Z.

(** [W], the width of the A4 page, from [reportlab.lib.pagesizes]. *)
Variable W : Z.

(** [CONTENT_W = W - 2 * MARGIN] *)
Definition CONTENT_W : Z := W - 2 * MARGIN.

(** [draw_bullet]; [draw_text] is called with its default [align] and
    [max_width]. *)
Definition draw_bullet (self : t) (text : Py.str) (indent : Z)
    (bullet_char : Py.str) : t :=
  let self :=
    draw_text stringWidth self bullet_char (MARGIN + indent - 10) (y self)
      "CrimsonPro" 10 SLATE "left" None in
  let '(self, y') :=
    draw_wrapped_text stringWidth self text (MARGIN + indent + 2) (y self)
      (CONTENT_W - indent - 2) "CrimsonPro" 10 CHARCOAL 14 in
  let self := set_y self y' in
  set_y self (y self - 3).

(** [draw_code_text] *)
Definition draw_code_text (self : t) (text : Py.str) (indent : Z) : t :=
  let self :=
    draw_text stringWidth self text (MARGIN + indent) (y self)
      "GeistMono" 8 NAVY_LIGHT "left" None in
  set_y self (y self - 12).

(** Every break between two groups of words was forced: the first
    word of a group did not fit on the line of the group before. *)
Fixpoint forced (font : string) (size max_width : Z)
    (groups : list (list Py.str)) : Prop :=
  match groups with
  | [] => True
  | g :: rest =>
      match rest with
      | (w :: _) :: _ =>
          max_width < stringWidth (Py.join_space (g ++ [w])) font size
      | _ => True
      end /\ forced font size max_width rest
  end.

(** The anchor [draw_text] draws with for a value of [align]. *)
Definition anchor_of (align : string) : Canvas.Anchor :=
  if String.eqb align "center" then Canvas.AnchorCentre
  else if String.eqb align "right" then Canvas.AnchorRight
  else Canvas.AnchorLeft.

(** The string [draw_text] draws for [text]. *)
Definition fitted (font : string) (size : Z) (max_width : option Z)
    (text : Py.str) : Py.str :=
  match max_width with
  | Some w =>
      if truthy_width max_width then truncate stringWidth font size w text
      else text
  | None => text
  end.

(** The loop state of [draw_wrapped_text] with the breaks so far
    forced. *)
Record greedy (font : string) (size max_width : Z)
    (seen : list Py.str) (st : list Py.str * Py.str)
    (gs : list (list Py.str)) (g : list Py.str) : Prop := {
  gr_layout : layout stringWidth font size max_width seen st gs g;
  gr_forced : forced font size max_width (gs ++ [g]);
  gr_started : g = [] -> gs = []
}.

End Content.

End ERPTrainingDoc.

(* ================================================================== *)
(** ** [draw_wrapped_text] over any number type

    The numbers of the program are mostly floats ([H - MARGIN], the
    widths [stringWidth] returns).  Here the number type, its
    subtraction [-] and its comparison [<=] are parameters of the
    canvas and of [draw_wrapped_text]; the code is the same. *)

Module Numeric.

Section Numbers.

Variable num : Type.

(** [a - b] and [a <= b] *)
Variable sub : num -> num -> num.
Variable leb : num -> num -> bool.

Record GState := mkGState {
  font_name : string;
  font_size : num;
  fill_color : Canvas.Color
}.

(** One string placed by [drawString]. *)
Record Op := mkOp {
  op_x : num;
  op_y : num;
  op_text : Py.str;
  op_state : GState
}.

Record canvas := mkCanvas {
  state : GState;
  saved : list GState;
  page : list Op
}.

Definition saveState (c : canvas) : canvas :=
  mkCanvas (state c) (state c :: saved c) (page c).

Definition restoreState (c : canvas) : canvas :=
  match saved c with
  | [] => c
  | g :: s => mkCanvas g s (page c)
  end.

Definition setFont (c : canvas) (font : string) (size : num) : canvas :=
  mkCanvas (mkGState font size (fill_color (state c))) (saved c) (page c).

Definition setFillColor (c : canvas) (color : Canvas.Color) : canvas :=
  mkCanvas (mkGState (font_name (state c)) (font_size (state c)) color)
    (saved c) (page c).

Definition drawString (c : canvas) (x y : num) (text : Py.str) : canvas :=
  mkCanvas (state c) (saved c) (page c ++ [mkOp x y text (state c)]).

(** [self] *)
Record doc := mkDoc {
  c : canvas;
  page_num : Z;
  y : num
}.

Definition with_c (self : doc) (c' : canvas) : doc :=
  mkDoc c' (page_num self) (y self).

Variable stringWidth : Py.str -> string -> num -> num.

(** One round of the loop over [words]. *)
Definition wrap_word (font : string) (size max_width : num)
    (st : list Py.str * Py.str) (word : Py.str)
    : list Py.str * Py.str :=
  let '(lines, current_line) := st in
  let test :=
    current_line ++ (if Py.truthy current_line then [Py.SPACE] else [])
                 ++ word in
  if leb (stringWidth test font size) max_width then (lines, test)
  else
    ((if Py.truthy current_line then lines ++ [current_line] else lines),
     word).

(** The list [lines]. *)
Definition wrap_lines (text : Py.str) (max_width : num)
    (font : string) (size : num) : list Py.str :=
  let words := Py.split text in
  let '(lines, current_line) :=
    fold_left (wrap_word font size max_width) words ([], []) in
  if Py.truthy current_line then lines ++ [current_line] else lines.

(** One round of the loop over [lines]: [drawString(x, y, line)] and
    [y -= leading]. *)
Definition draw_line (x leading : num) (st : canvas * num)
    (line : Py.str) : canvas * num :=
  let '(c, y) := st in
  (drawString c x y line, sub y leading).

Definition draw_wrapped_text (self : doc) (text : Py.str) (x y : num)
    (max_width : num) (font : string) (size : num) (color : Canvas.Color)
    (leading : num) : doc * num :=
  let c := saveState (c self) in
  let c := setFont c font size in
  let c := setFillColor c color in
  let lines := wrap_lines text max_width font size in
  let '(c, y) := fold_left (draw_line x leading) lines (c, y) in
  (with_c self (restoreState c), y).

(** What one call put on the page. *)
Definition emitted (before after : doc) : list Op :=
  skipn (length (page (c before))) (page (c after)).

(** [y] after [k] rounds of [y -= leading]. *)
Definition down (leading y : num) (k : nat) : num :=
  Nat.iter k (fun v => sub v leading) y.

(** The strings a run of [drawString] calls places, [y -= leading]
    after each. *)
Fixpoint placed (g : GState) (x y leading : num)
    (lines : list Py.str) : list Op :=
  match lines with
  | [] => []
  | line :: rest => mkOp x y line g :: placed g x (sub y leading) leading rest
  end.

End Numbers.

Arguments mkGState {num} _ _ _.
Arguments mkOp {num} _ _ _ _.
Arguments mkCanvas {num} _ _ _.
Arguments mkDoc {num} _ _ _.
Arguments font_name {num} _.
Arguments font_size {num} _.
Arguments fill_color {num} _.
Arguments op_x {num} _.
Arguments op_y {num} _.
Arguments op_text {num} _.
Arguments op_state {num} _.
Arguments state {num} _.
Arguments saved {num} _.
Arguments page {num} _.
Arguments c {num} _.
Arguments page_num {num} _.
Arguments y {num} _.
Arguments emitted {num} _ _.
Arguments drawString {num} _ _ _ _.
Arguments draw_line {num} _ _ _ _ _.
Arguments wrap_word {num} _ _ _ _ _ _ _.
Arguments down {num} _ _ _ _.
Arguments placed {num} _ _ _ _ _ _.
Arguments wrap_lines {num} _ _ _ _ _ _.
Arguments draw_wrapped_text {num} _ _ _ _ _ _ _ _ _ _ _ _.

(** The integer canvas of a canvas over [Z]. *)
Definition lower_state (g : GState Z) : Canvas.GState :=
  Canvas.mkGState (font_name g) (font_size g) (fill_color g).

Definition lower_op (op : Op Z) : Canvas.Op :=
  Canvas.mkOp Canvas.AnchorLeft (op_x op) (op_y op) (op_text op)
    (lower_state (op_state op)).

Definition lower_canvas (cv : canvas Z) : Canvas.t :=
  Canvas.mk (lower_state (state cv)) (map lower_state (saved cv))
    (map lower_op (page cv)).

Definition lower (self : doc Z) : ERPTrainingDoc.t :=
  ERPTrainingDoc.mk (lower_canvas (c self)) (page_num self) (y self).

(** A fixed-pitch font in floats: every character adds [size]. *)
Definition float_pitch (text : Py.str) (font : string) (size : float)
    : float :=
  fold_left (fun width _ => PrimFloat.add width size) text 0%float.

(** A document of floats, nothing drawn yet. *)
Definition float_blank : doc float :=
  mkDoc (mkCanvas (mkGState "Helvetica" 12%float 0%N) [] []) 1 796%float.

(** [0.1], the binary64 number the literal stands for. *)
Definition tenth : float := 0x1.999999999999ap-4%float.

End Numeric.

(* ================================================================== *)
(** ** Whitespace normalisation, as the specification words it *)

Module Normal.

(** Every run of consecutive whitespace collapsed to a single space:
    a whitespace character followed by another one is dropped, the
    last one of a run becomes [" "]. *)
Fixpoint collapse (s : Py.str) : Py.str :=
  match s with
  | [] => []
  | ch :: rest =>
      if Py.isspace ch then
        match rest with
        | [] => [Py.SPACE]
        | ch' :: _ =>
            if Py.isspace ch' then collapse rest
            else Py.SPACE :: collapse rest
        end
      else ch :: collapse rest
  end.

(** Leading whitespace removed. *)
Fixpoint lstrip (s : Py.str) : Py.str :=
  match s with
  | [] => []
  | ch :: rest => if Py.isspace ch then lstrip rest else s
  end.

(** Trailing whitespace removed. *)
Definition rstrip (s : Py.str) : Py.str := rev (lstrip (rev s)).

Definition normalize (s : Py.str) : Py.str := rstrip (lstrip (collapse s)).

(** Whether a string ends in whitespace. *)
Fixpoint trailing (s : Py.str) : bool :=
  match s with
  | [] => false
  | ch :: rest =>
      match rest with
      | [] => Py.isspace ch
      | _ :: _ => trailing rest
      end
  end.

(** The joined words, with one space after them when there are words
    and [tail] holds. *)
Definition joined (ws : list Py.str) (tail : bool) : Py.str :=
  match ws with
  | [] => []
  | _ :: _ => Py.join_space ws ++ (if tail then [Py.SPACE] else [])
  end.

(** The collapsed rest of a text behind the word [w] in progress, less
    the whitespace in front when there is no such word. *)
Definition behind (w rest : Py.str) : Py.str :=
  match w with
  | [] => lstrip (collapse rest)
  | _ :: _ => w ++ collapse rest
  end.

End Normal.

(* ================================================================== *)
(** ** Font metrics used in the examples *)

Module Metric.

(** A fixed-pitch font: every character is [size] units wide. *)
Definition fixed_pitch (text : Py.str) (font : string) (size : Z) : Z :=
  size * Z.of_nat (length text).

(** reportlab's metric: [size] times the sum of the widths of the
    glyphs of the font (in thousandths: [stringWidth] is
    [0.001 * size * sum(widths)]). *)
Definition glyph_sum (glyph : string -> Py.char -> Z) (font : string)
    (text : Py.str) : Z :=
  fold_right (fun ch total => glyph font ch + total) 0 text.

Definition of_glyphs (glyph : string -> Py.char -> Z)
    (text : Py.str) (font : string) (size : Z) : Z :=
  size * glyph_sum glyph font text.

(** The glyphs of Courier, all 600 wide. *)
Definition courier (font : string) (ch : Py.char) : Z := 600.

(** Not a width: a lone character measures [size], everything else
    nothing.  A join can be narrower than the words it is made of. *)
Definition lone_char (text : Py.str) (font : string) (size : Z) : Z :=
  if (length text =? 1)%nat then size else 0.

End Metric.

(** A document at the top of its first page, nothing drawn yet. *)
Definition blank : ERPTrainingDoc.t :=
  ERPTrainingDoc.mk
    (Canvas.mk (Canvas.mkGState "Helvetica" 12 0%N) [] []) 1 796.

(* ================================================================== *)
(** ** Facts about [split] and [join] *)

Module PyFacts.
Import Py.

Lemma space_isspace : isspace SPACE = true.
Proof. reflexivity. Qed.

Lemma truthy_true (s : str) : truthy s = true <-> s <> [].
Proof. destruct s; simpl; split; congruence. Qed.

Lemma truthy_false (s : str) : truthy s = false <-> s = [].
Proof. destruct s; simpl; split; congruence. Qed.

Lemma split_from_cons (w : str) (ch : char) (rest : str) :
  split_from w (ch :: rest)
  = if isspace ch then flush w ++ split_from [] rest
    else split_from (w ++ [ch]) rest.
Proof. reflexivity. Qed.

Lemma flush_word (w : str) : w <> [] -> flush w = [w].
Proof. intros H. unfold flush. apply truthy_true in H. now rewrite H. Qed.

(** Scanning a stretch without whitespace only grows the word in
    progress. *)
Lemma split_from_no_space (u : str) :
  no_space u ->
  forall w s, split_from w (u ++ s) = split_from (w ++ u) s.
Proof.
  induction 1 as [|ch u Hch _ IH]; intros w s; simpl.
  - now rewrite app_nil_r.
  - rewrite Hch, IH, <- app_assoc. reflexivity.
Qed.

(** Scanning whitespace only closes the word in progress. *)
Lemma split_from_all_space (s : str) :
  all_space s -> forall w, split_from w s = flush w.
Proof.
  induction 1 as [|ch s Hch _ IH]; intros w; simpl.
  - reflexivity.
  - rewrite Hch, IH. unfold flush at 2. simpl. apply app_nil_r.
Qed.

Lemma split_from_space_tail (t s : str) :
  all_space s -> forall w, split_from w (t ++ s) = split_from w t.
Proof.
  intros Hs. induction t as [|ch t IH]; intros w; simpl.
  - now apply split_from_all_space.
  - destruct (isspace ch); now rewrite IH.
Qed.

(** Everything [split] returns is a word. *)
Lemma split_from_words (s : str) :
  forall w, no_space w -> Forall is_word (split_from w s).
Proof.
  assert (Hflush : forall w, no_space w -> Forall is_word (flush w)).
  { intros w Hw. unfold flush. destruct (truthy w) eqn:E; constructor.
    - split; [now apply truthy_true | exact Hw].
    - constructor. }
  induction s as [|ch s IH]; intros w Hw; simpl.
  - now apply Hflush.
  - destruct (isspace ch) eqn:E.
    + apply Forall_app. split; [now apply Hflush | apply IH; constructor].
    + apply IH. apply Forall_app. split; [exact Hw | now repeat constructor].
Qed.

Lemma split_words (s : str) : Forall is_word (split s).
Proof. apply split_from_words. constructor. Qed.

(** [split] undoes [join] on words. *)
Lemma split_join (ws : list str) :
  Forall is_word ws -> split (join_space ws) = ws.
Proof.
  unfold split.
  induction 1 as [|w ws [Hne Hw] Hws IH]; [reflexivity|].
  destruct ws as [|w' ws'].
  - simpl. rewrite <- (app_nil_r w) at 1.
    rewrite split_from_no_space by exact Hw. simpl. now apply flush_word.
  - change (join_space (w :: w' :: ws'))
      with (w ++ SPACE :: join_space (w' :: ws')).
    rewrite split_from_no_space by exact Hw.
    cbn [split_from app]. rewrite space_isspace, IH.
    now rewrite flush_word.
Qed.

Lemma join_space_nil (ws : list str) :
  Forall is_word ws -> join_space ws = [] -> ws = [].
Proof.
  intros Hws H. destruct ws as [|w ws]; [reflexivity|].
  apply Forall_inv in Hws as [Hne _].
  simpl in H. destruct ws; [congruence|].
  apply app_eq_nil in H as [H _]. congruence.
Qed.

(** [" ".join(ws + [w])], as the loop of [draw_wrapped_text] builds
    it from the line so far. *)
Lemma join_space_snoc (ws : list str) (w : str) :
  Forall is_word ws ->
  join_space (ws ++ [w])
  = join_space ws ++ (if truthy (join_space ws) then [SPACE] else []) ++ w.
Proof.
  induction 1 as [|v ws [Hne Hv] Hws IH]; [reflexivity|].
  destruct ws as [|v' ws'].
  - simpl. apply truthy_true in Hne. now rewrite Hne.
  - change (join_space ((v :: v' :: ws') ++ [w]))
      with (v ++ SPACE :: join_space ((v' :: ws') ++ [w])).
    rewrite IH.
    change (join_space (v :: v' :: ws'))
      with (v ++ SPACE :: join_space (v' :: ws')).
    assert (Ht : truthy (join_space (v' :: ws')) = true).
    { apply truthy_true. intros E.
      apply join_space_nil in E; [discriminate | exact Hws]. }
    rewrite Ht.
    assert (Ht' : truthy (v ++ SPACE :: join_space (v' :: ws')) = true).
    { apply truthy_true. intros E. apply app_eq_nil in E as [_ E].
      discriminate. }
    rewrite Ht'. rewrite <- !app_assoc. reflexivity.
Qed.

End PyFacts.

(* ================================================================== *)
(** ** The wrapping loop *)

Module WrapFacts.
Import Py PyFacts ERPTrainingDoc.

Section Loop.

Variable stringWidth : str -> string -> Z -> Z.
Variables (font : string) (size max_width : Z).

Local Abbreviation step := (wrap_word stringWidth font size max_width).
Local Abbreviation ok := (group_ok stringWidth font size max_width).
Local Abbreviation layout := (layout stringWidth font size max_width).

Lemma layout_start : layout [] ([], []) [] [].
Proof.
  constructor; simpl; try reflexivity; try constructor.
  intros H. simpl in H. lia.
Qed.

Lemma ok_single (w : str) : ok [w].
Proof. intros H. simpl in H. lia. Qed.

Lemma layout_step (seen : list str) (w : str) st gs g :
  Forall is_word seen ->
  layout seen st gs g ->
  exists gs' g', layout (seen ++ [w]) (step st w) gs' g'.
Proof.
  intros Hseen [Hl Hc Hs Hne Hok Hg]. destruct st as [lines cur].
  simpl in Hl, Hc. subst lines cur.
  assert (Hgw : Forall is_word g).
  { subst seen. apply Forall_app in Hseen. tauto. }
  unfold wrap_word. cbv beta iota zeta.
  rewrite <- (join_space_snoc g w Hgw).
  destruct (stringWidth (join_space (g ++ [w])) font size <=? max_width)
    eqn:Efit.
  - (* test fits: the word joins the line in progress *)
    exists gs, (g ++ [w]). constructor; simpl; auto.
    + rewrite app_assoc. now f_equal.
    + intros _. apply Z.leb_le. exact Efit.
  - destruct (truthy (join_space g)) eqn:Ecur.
    + (* the line in progress is committed *)
      exists (gs ++ [g]), [w]. constructor; simpl.
      * now rewrite map_app.
      * reflexivity.
      * subst seen. rewrite concat_app. simpl. now rewrite app_nil_r.
      * apply Forall_app. split; [exact Hne |].
        constructor; [| constructor].
        intros ->. discriminate.
      * apply Forall_app. split; [exact Hok | now repeat constructor].
      * apply ok_single.
    + (* nothing in progress: only at the first word *)
      apply truthy_false in Ecur.
      apply join_space_nil in Ecur; [| exact Hgw]. subst g.
      exists gs, [w]. constructor; simpl; auto.
      * rewrite app_nil_r in Hs. now subst seen.
      * apply ok_single.
Qed.

Lemma layout_loop (ws : list str) :
  forall seen st gs g,
    Forall is_word (seen ++ ws) ->
    layout seen st gs g ->
    exists gs' g', layout (seen ++ ws) (fold_left step ws st) gs' g'.
Proof.
  induction ws as [|w ws IH]; intros seen st gs g Hw Hlay; simpl.
  - rewrite app_nil_r. eauto.
  - assert (Hseen : Forall is_word seen).
    { apply Forall_app in Hw. tauto. }
    destruct (@layout_step seen w st gs g Hseen Hlay) as (gs1 & g1 & Hlay1).
    replace (seen ++ w :: ws) with ((seen ++ [w]) ++ ws) in *
      by (rewrite <- app_assoc; reflexivity).
    eapply IH; eauto.
Qed.

(** The lines of [draw_wrapped_text] lay the words of the text out
    in groups. *)
Lemma wrap_lines_grouping (text : str) :
  exists groups,
    grouping stringWidth font size max_width (split text)
      (wrap_lines stringWidth text max_width font size) groups.
Proof.
  unfold wrap_lines.
  destruct (@layout_loop (split text) [] _ _ _ (split_words text)
              layout_start)
    as (gs & g & [Hl Hc Hs Hne Hok Hg]).
  simpl in Hs.
  destruct (fold_left step (split text) ([], [])) as [lines cur].
  simpl in Hl, Hc. subst lines cur.
  assert (Hgw : Forall is_word g).
  { pose proof (split_words text) as H. rewrite <- Hs in H.
    apply Forall_app in H. tauto. }
  destruct (truthy (join_space g)) eqn:Ecur.
  - exists (gs ++ [g]). repeat split.
    + now rewrite map_app.
    + rewrite concat_app. simpl. now rewrite app_nil_r.
    + apply Forall_app. split; [exact Hne |].
      constructor; [| constructor]. intros ->. discriminate.
    + apply Forall_app. split; [exact Hok | now repeat constructor].
  - apply truthy_false in Ecur.
    apply join_space_nil in Ecur; [| exact Hgw]. subst g.
    exists gs. rewrite app_nil_r in Hs. repeat split; auto.
Qed.

End Loop.

End WrapFacts.

(* ================================================================== *)
(** ** The drawing loop and the whole of [draw_wrapped_text] *)

Module DrawFacts.
Import Py ERPTrainingDoc.

Lemma skipn_own_length {A : Type} (p l : list A) :
  skipn (length p) (p ++ l) = l.
Proof. induction p as [|a p IH]; simpl; auto. Qed.

Lemma placed_texts (g : Canvas.GState) (x leading : Z) (lines : list str) :
  forall y, map Canvas.op_text (placed g x y leading lines) = lines.
Proof.
  induction lines as [|line rest IH]; intros y; simpl; [| rewrite IH];
    reflexivity.
Qed.

Lemma placed_length (g : Canvas.GState) (x leading : Z) (lines : list str) :
  forall y, length (placed g x y leading lines) = length lines.
Proof.
  induction lines as [|line rest IH]; intros y; simpl; [| rewrite IH];
    reflexivity.
Qed.

(** Line [k] sits [k] leadings below the first. *)
Lemma placed_nth (g : Canvas.GState) (x leading : Z) (lines : list str) :
  forall (k : nat) y line,
    nth_error lines k = Some line ->
    nth_error (placed g x y leading lines) k
    = Some (Canvas.mkOp Canvas.AnchorLeft x (y - Z.of_nat k * leading)
              line g).
Proof.
  induction lines as [|l rest IH]; intros [|k] y line H;
    cbn [nth_error placed] in *; try discriminate.
  - injection H as ->. do 2 f_equal. simpl. lia.
  - rewrite (IH k (y - leading) line H). do 2 f_equal.
    rewrite Nat2Z.inj_succ. lia.
Qed.

Lemma draw_lines_placed (x leading : Z) (lines : list str) :
  forall (c : Canvas.t) (y : Z),
    fold_left (draw_line x leading) lines (c, y)
    = (Canvas.mk (Canvas.state c) (Canvas.saved c)
         (Canvas.page c ++ placed (Canvas.state c) x y leading lines),
       y - leading * Z.of_nat (length lines)).
Proof.
  induction lines as [|line rest IH]; intros c y.
  - simpl. rewrite app_nil_r. destruct c. simpl. f_equal. lia.
  - cbn [fold_left draw_line]. rewrite IH. cbn [placed length].
    unfold Canvas.drawString, Canvas.place.
    cbn [Canvas.state Canvas.saved Canvas.page].
    rewrite <- app_assoc. simpl. f_equal. lia.
Qed.

Section Whole.

Variable stringWidth : str -> string -> Z -> Z.

(** [draw_wrapped_text] in one equation: the lines of the wrapping
    loop are placed below one another in the requested font and
    colour, the graphics state of the canvas is put back, and the
    position below the last line is returned. *)
Lemma draw_wrapped_text_eq (self : t) (text : str) (x y max_width : Z)
    (font : string) (size : Z) (color : Canvas.Color) (leading : Z) :
  let lines := wrap_lines stringWidth text max_width font size in
  draw_wrapped_text stringWidth self text x y max_width font size color
    leading
  = (mk (Canvas.mk (Canvas.state (c self)) (Canvas.saved (c self))
           (Canvas.page (c self)
            ++ placed (Canvas.mkGState font size color) x y leading lines))
        (page_num self) (ERPTrainingDoc.y self),
     y - leading * Z.of_nat (length lines)).
Proof.
  intros lines. unfold draw_wrapped_text. fold lines.
  rewrite draw_lines_placed. reflexivity.
Qed.

Lemma output_lines_eq (self : t) (text : str) (x y max_width : Z)
    (font : string) (size : Z) (color : Canvas.Color) (leading : Z) :
  output_lines stringWidth self text x y max_width font size color leading
  = wrap_lines stringWidth text max_width font size.
Proof.
  unfold output_lines, emitted. rewrite draw_wrapped_text_eq.
  cbn [fst c Canvas.page]. rewrite skipn_own_length.
  apply placed_texts.
Qed.

Lemma emitted_eq (self : t) (text : str) (x y max_width : Z)
    (font : string) (size : Z) (color : Canvas.Color) (leading : Z) :
  emitted self
    (fst (draw_wrapped_text stringWidth self text x y max_width font size
            color leading))
  = placed (Canvas.mkGState font size color) x y leading
      (wrap_lines stringWidth text max_width font size).
Proof.
  unfold emitted. rewrite draw_wrapped_text_eq.
  cbn [fst c Canvas.page]. apply skipn_own_length.
Qed.

Lemma end_y_eq (self : t) (text : str) (x y max_width : Z)
    (font : string) (size : Z) (color : Canvas.Color) (leading : Z) :
  end_y stringWidth self text x y max_width font size color leading
  = y - leading
        * Z.of_nat (length (wrap_lines stringWidth text max_width font size)).
Proof. unfold end_y. now rewrite draw_wrapped_text_eq. Qed.

End Whole.

End DrawFacts.

(* ================================================================== *)
(** ** Groups of words and the lines they make *)

Module GroupFacts.
Import Py PyFacts ERPTrainingDoc.

Lemma groups_of_words (groups : list (list str)) :
  Forall is_word (concat groups) -> Forall (Forall is_word) groups.
Proof.
  induction groups as [|g groups IH]; simpl; intros H; constructor;
    apply Forall_app in H; tauto.
Qed.

Lemma split_joined_groups (groups : list (list str)) :
  Forall (Forall is_word) groups ->
  map split (map join_space groups) = groups.
Proof.
  induction 1 as [|g groups Hg _ IH]; simpl; [reflexivity |].
  now rewrite split_join, IH.
Qed.

Section Grouping.

Variable stringWidth : str -> string -> Z -> Z.
Variables (font : string) (size max_width : Z).
Variables (text : str) (groups : list (list str)).

Hypothesis laid_out :
  grouping stringWidth font size max_width (split text)
    (wrap_lines stringWidth text max_width font size) groups.

Lemma grouping_words : Forall (Forall is_word) groups.
Proof.
  destruct laid_out as (_ & Hc & _). apply groups_of_words.
  rewrite Hc. apply split_words.
Qed.

Lemma grouping_split :
  map split (wrap_lines stringWidth text max_width font size) = groups.
Proof.
  destruct laid_out as (-> & _). apply split_joined_groups, grouping_words.
Qed.

(** A line of the layout is a group, and splits back into it. *)
Lemma grouping_line (line : str) :
  In line (wrap_lines stringWidth text max_width font size) ->
  exists g, In g groups /\ line = join_space g /\ split line = g.
Proof.
  destruct laid_out as (Hl & _). rewrite Hl. intros Hin.
  apply in_map_iff in Hin as (g & <- & Hg). exists g. repeat split; auto.
  apply split_join. pose proof grouping_words as Hw.
  rewrite Forall_forall in Hw. auto.
Qed.

End Grouping.

Arguments grouping_words {_ _ _ _ _ _} _.
Arguments grouping_split {_ _ _ _ _ _} _.
Arguments grouping_line {_ _ _ _ _ _} _ _ _.

End GroupFacts.

(* ================================================================== *)
(** ** Properties of [draw_wrapped_text] *)

Import Py PyFacts ERPTrainingDoc.

(** C1, word conservation.  For every text and every font metric, the
    words of the lines drawn by [draw_wrapped_text], taken line after
    line, are exactly the words of the text: the lines are the joins of
    consecutive non-empty groups of the words, so each word is in one
    line, in its place, and whole. *)
Theorem word_conservation
    (stringWidth : str -> string -> Z -> Z) (self : t) (text : str)
    (x y max_width : Z) (font : string) (size : Z) (color : Canvas.Color)
    (leading : Z) :
  let lines :=
    output_lines stringWidth self text x y max_width font size color
      leading in
  concat (map split lines) = split text /\
  exists groups : list (list str),
    lines = map join_space groups /\
    concat groups = split text /\
    Forall (fun g => g <> []) groups /\
    map split lines = groups.
Proof.
  intros lines. subst lines. rewrite DrawFacts.output_lines_eq.
  destruct (WrapFacts.wrap_lines_grouping stringWidth font size max_width
              text) as (groups & Hlay).
  pose proof (GroupFacts.grouping_split Hlay) as Hsplit.
  destruct Hlay as (Hl & Hc & Hne & _).
  split.
  - now rewrite Hsplit.
  - exists groups. auto.
Qed.

(** C2, width bound.  Every line drawn by [draw_wrapped_text] that
    holds more than one word measures at most [max_width]. *)
Theorem width_bound
    (stringWidth : str -> string -> Z -> Z) (self : t) (text : str)
    (x y max_width : Z) (font : string) (size : Z) (color : Canvas.Color)
    (leading : Z) (line : str) :
  In line
    (output_lines stringWidth self text x y max_width font size color
       leading) ->
  (1 < length (split line))%nat ->
  stringWidth line font size <= max_width.
Proof.
  rewrite DrawFacts.output_lines_eq. intros Hin Hmany.
  destruct (WrapFacts.wrap_lines_grouping stringWidth font size max_width
              text) as (groups & Hlay).
  destruct (GroupFacts.grouping_line Hlay line Hin) as (g & Hg & -> & Hs).
  destruct Hlay as (_ & _ & _ & Hok).
  rewrite Forall_forall in Hok. apply (Hok g Hg). now rewrite <- Hs.
Qed.

(* ================================================================== *)
(** ** The cursor over any number type *)

Module NumericFacts.
Import Numeric.

Section Steps.

Variable num : Type.
Variable sub : num -> num -> num.
Variable leb : num -> num -> bool.
Variable stringWidth : str -> string -> num -> num.

Lemma down_next (leading y : num) (k : nat) :
  down sub leading (sub y leading) k = down sub leading y (S k).
Proof. unfold down. now rewrite Nat.iter_succ_r. Qed.

Lemma steps_length (g : GState num) (x leading : num) (lines : list str) :
  forall y, length (placed sub g x y leading lines) = length lines.
Proof.
  induction lines as [|line rest IH]; intros y; simpl; [| rewrite IH];
    reflexivity.
Qed.

Lemma steps_texts (g : GState num) (x leading : num) (lines : list str) :
  forall y, map op_text (placed sub g x y leading lines) = lines.
Proof.
  induction lines as [|line rest IH]; intros y; simpl; [| rewrite IH];
    reflexivity.
Qed.

(** Line [k] sits [k] rounds of [y -= leading] below the first. *)
Lemma steps_nth (g : GState num) (x leading : num) (lines : list str) :
  forall (k : nat) y line,
    nth_error lines k = Some line ->
    nth_error (placed sub g x y leading lines) k
    = Some (mkOp x (down sub leading y k) line g).
Proof.
  induction lines as [|l rest IH]; intros [|k] y line H;
    cbn [nth_error placed] in *; try discriminate.
  - injection H as ->. reflexivity.
  - rewrite (IH k (sub y leading) line H). now rewrite down_next.
Qed.


Lemma steps_placed (x leading : num) (lines : list str) :
  forall (cv : canvas num) (y : num),
    fold_left (draw_line sub x leading) lines (cv, y)
    = (mkCanvas (state cv) (saved cv)
         (page cv ++ placed sub (state cv) x y leading lines),
       down sub leading y (length lines)).
Proof.
  induction lines as [|line rest IH]; intros cv y.
  - simpl. rewrite app_nil_r. now destruct cv.
  - cbn [fold_left draw_line]. rewrite IH. cbn [placed length].
    unfold drawString. cbn [state saved page].
    now rewrite <- app_assoc, down_next.
Qed.

(** [draw_wrapped_text] in one equation. *)
Lemma steps_eq (self : doc num) (text : str)
    (x y max_width : num) (font : string) (size : num)
    (color : Canvas.Color) (leading : num) :
  let lines := wrap_lines leb stringWidth text max_width font size in
  draw_wrapped_text sub leb stringWidth self text x y max_width font size
    color leading
  = (mkDoc (mkCanvas (state (c self)) (saved (c self))
              (page (c self)
               ++ placed sub (mkGState font size color) x y leading lines))
           (page_num self) (Numeric.y self),
     down sub leading y (length lines)).
Proof.
  intros lines. unfold draw_wrapped_text. fold lines.
  rewrite steps_placed. reflexivity.
Qed.

End Steps.

(** Over the integers the rounds add up. *)
Lemma down_Z (leading y : Z) (k : nat) :
  down Z.sub leading y k = y - Z.of_nat k * leading.
Proof.
  unfold down. induction k as [|k IH].
  - simpl. lia.
  - rewrite Nat.iter_succ, IH, Nat2Z.inj_succ. lia.
Qed.

Lemma placed_Z (g : GState Z) (x leading : Z) (lines : list str) :
  forall y,
    map lower_op (placed Z.sub g x y leading lines)
    = ERPTrainingDoc.placed (lower_state g) x y leading lines.
Proof.
  induction lines as [|line rest IH]; intros y; [reflexivity |].
  cbn [placed ERPTrainingDoc.placed map]. now rewrite IH.
Qed.

(** At [Z] the function is [ERPTrainingDoc.draw_wrapped_text]. *)
Lemma draw_wrapped_text_Z
    (stringWidth : str -> string -> Z -> Z) (self : doc Z) (text : str)
    (x y max_width : Z) (font : string) (size : Z) (color : Canvas.Color)
    (leading : Z) :
  let r :=
    draw_wrapped_text Z.sub Z.leb stringWidth self text x y max_width font
      size color leading in
  (lower (fst r), snd r)
  = ERPTrainingDoc.draw_wrapped_text stringWidth (lower self) text x y
      max_width font size color leading.
Proof.
  intros r. subst r.
  rewrite steps_eq, DrawFacts.draw_wrapped_text_eq.
  change (wrap_lines Z.leb stringWidth text max_width font size)
    with (ERPTrainingDoc.wrap_lines stringWidth text max_width font size).
  cbn [fst snd]. unfold lower, lower_canvas.
  cbn [c state saved page page_num Numeric.y ERPTrainingDoc.c].
  rewrite map_app, placed_Z, down_Z. cbn [lower_state font_name font_size
                                           fill_color].
  do 2 f_equal. lia.
Qed.

End NumericFacts.

(** C4 as the code has it.  Over any number type, line [k] of
    [draw_wrapped_text] is drawn at [x] and at the position [k] rounds
    of [y -= leading] below [y], the lines are those laid out from the
    words of the text, nothing drawn before is touched, and the call
    returns the position one round per line below [y].  Over the
    integers, where the subtraction is exact, that is
    [y - k * leading] for line [k] and [y - leading * (number of
    lines)] for the position returned. *)
Theorem cursor_steps :
  (forall (num : Type) (sub : num -> num -> num)
          (leb : num -> num -> bool)
          (stringWidth : str -> string -> num -> num)
          (self : Numeric.doc num) (text : str) (x y max_width : num)
          (font : string) (size : num) (color : Canvas.Color)
          (leading : num),
     let lines :=
       Numeric.wrap_lines leb stringWidth text max_width font size in
     let r :=
       Numeric.draw_wrapped_text sub leb stringWidth self text x y
         max_width font size color leading in
     let drawn := Numeric.emitted self (fst r) in
     Numeric.page (Numeric.c (fst r))
     = Numeric.page (Numeric.c self) ++ drawn /\
     length drawn = length lines /\
     (forall k : nat,
        nth_error drawn k
        = option_map
            (fun line =>
               Numeric.mkOp x (Numeric.down sub leading y k) line
                 (Numeric.mkGState font size color))
            (nth_error lines k)) /\
     snd r = Numeric.down sub leading y (length lines)) /\
  (forall (stringWidth : str -> string -> Z -> Z) (self : t) (text : str)
          (x y max_width : Z) (font : string) (size : Z)
          (color : Canvas.Color) (leading : Z),
     let lines := wrap_lines stringWidth text max_width font size in
     let drawn :=
       emitted self
         (fst (draw_wrapped_text stringWidth self text x y max_width font
                 size color leading)) in
     length drawn = length lines /\
     (forall k : nat,
        nth_error drawn k
        = option_map
            (fun line =>
               Canvas.mkOp Canvas.AnchorLeft x (y - Z.of_nat k * leading)
                 line (Canvas.mkGState font size color))
            (nth_error lines k)) /\
     end_y stringWidth self text x y max_width font size color leading
     = y - leading * Z.of_nat (length lines)).
Proof.
  split.
  - intros num sub leb stringWidth self text x y max_width font size color
      leading lines r drawn. subst r drawn. unfold Numeric.emitted.
    rewrite NumericFacts.steps_eq. fold lines.
    cbn [fst snd Numeric.c Numeric.page].
    rewrite DrawFacts.skipn_own_length.
    split; [reflexivity |]. split; [apply NumericFacts.steps_length |].
    split; [| reflexivity]. intros k.
    destruct (nth_error lines k) as [line |] eqn:E; simpl.
    + now apply NumericFacts.steps_nth.
    + apply nth_error_None. rewrite NumericFacts.steps_length.
      now apply nth_error_None.
  - intros stringWidth self text x y max_width font size color leading
      lines drawn. subst drawn.
    rewrite DrawFacts.emitted_eq, DrawFacts.end_y_eq. fold lines.
    split; [apply DrawFacts.placed_length |]. split; [| reflexivity].
    intros k. destruct (nth_error lines k) as [line |] eqn:E; simpl.
    + now apply DrawFacts.placed_nth.
    + apply nth_error_None. rewrite DrawFacts.placed_length.
      now apply nth_error_None.
Qed.

(** Against C4 in floats.  Three lines from [y = 1.0] with
    [leading = 0.1]: the position returned is [0.7000000000000001],
    one float above [1.0 - 0.1 * 3]. *)
Lemma cursor_rounds_in_floats :
  let r :=
    Numeric.draw_wrapped_text PrimFloat.sub PrimFloat.leb
      Numeric.float_pitch Numeric.float_blank (lit "a b c") 45%float
      1%float 1%float "Courier" 1%float CHARCOAL Numeric.tenth in
  map Numeric.op_text (Numeric.emitted Numeric.float_blank (fst r))
  = [lit "a"; lit "b"; lit "c"] /\
  snd r = 0x1.6666666666667p-1%float /\
  snd r <> PrimFloat.sub 1%float (PrimFloat.mul Numeric.tenth 3%float).
Proof.
  cbv zeta. split; [reflexivity |]. split; [reflexivity |].
  intros H.
  assert (E : PrimFloat.ltb
                (PrimFloat.sub 1%float (PrimFloat.mul Numeric.tenth 3%float))
                (snd
                   (Numeric.draw_wrapped_text PrimFloat.sub PrimFloat.leb
                      Numeric.float_pitch Numeric.float_blank (lit "a b c")
                      45%float 1%float 1%float "Courier" 1%float CHARCOAL
                      Numeric.tenth))
              = true) by reflexivity.
  rewrite H in E. vm_compute in E. discriminate E.
Qed.

Lemma fixed_pitch_monotone (font : string) (size : Z) :
  0 <= size -> monotone Metric.fixed_pitch font size.
Proof.
  intros Hsize a b. unfold Metric.fixed_pitch. rewrite length_app. nia.
Qed.

(** A word of a group is a part of the joined group. *)
Lemma join_space_part (g : list str) (w : str) :
  In w g -> exists a b, join_space g = a ++ w ++ b.
Proof.
  induction g as [|v rest IH]; intros Hin; [contradiction |].
  destruct rest as [|v' rest'].
  - destruct Hin as [-> | []]. exists [], []. simpl. now rewrite app_nil_r.
  - change (join_space (v :: v' :: rest'))
      with (v ++ SPACE :: join_space (v' :: rest')).
    destruct Hin as [-> | Hin].
    + exists [], (SPACE :: join_space (v' :: rest')). reflexivity.
    + destruct (IH Hin) as (a & b & ->).
      exists (v ++ SPACE :: a), b. rewrite <- app_assoc. reflexivity.
Qed.

(** C3 as the code has it: under a font metric for which a string is
    at least as wide as each of its parts, a word wider than
    [max_width] is drawn alone on a line of its own, unchanged. *)
Theorem overlong_word_alone
    (stringWidth : str -> string -> Z -> Z) (self : t) (text : str)
    (x y max_width : Z) (font : string) (size : Z) (color : Canvas.Color)
    (leading : Z) (w : str) :
  monotone stringWidth font size ->
  In w (split text) ->
  max_width < stringWidth w font size ->
  let lines :=
    output_lines stringWidth self text x y max_width font size color
      leading in
  In w lines /\
  forall line, In line lines -> In w (split line) -> line = w.
Proof.
  intros Hmono Hw Hwide lines. subst lines.
  rewrite DrawFacts.output_lines_eq.
  destruct (WrapFacts.wrap_lines_grouping stringWidth font size max_width
              text) as (groups & Hlay).
  assert (Halone : forall g, In g groups -> In w g -> g = [w]).
  { intros g Hg Hin. destruct Hlay as (_ & _ & _ & Hok).
    rewrite Forall_forall in Hok. specialize (Hok g Hg).
    destruct g as [|v [|v' rest]].
    - contradiction.
    - destruct Hin as [-> | []]. reflexivity.
    - exfalso. destruct (join_space_part _ _ Hin) as (a & b & E).
      assert (Hfit : stringWidth (join_space (v :: v' :: rest)) font size
                     <= max_width) by (apply Hok; simpl; lia).
      rewrite E in Hfit.
      pose proof (proj2 (Hmono a (w ++ b))).
      pose proof (proj1 (Hmono w b)). lia. }
  assert (Hline : forall line,
            In line (wrap_lines stringWidth text max_width font size) ->
            In w (split line) -> line = w).
  { intros line Hin Hsplit.
    destruct (GroupFacts.grouping_line Hlay line Hin) as (g & Hg & -> & Hs).
    rewrite Hs in Hsplit. now rewrite (Halone g Hg Hsplit). }
  split; [| exact Hline].
  pose proof Hlay as (Hl & Hc & _).
  rewrite <- Hc in Hw. apply in_concat in Hw as (g & Hg & Hin).
  rewrite Hl. apply in_map_iff. exists g. split; [| exact Hg].
  now rewrite (Halone g Hg Hin).
Qed.

Lemma join_singletons (groups : list (list str)) :
  Forall (fun g => length g = 1%nat) groups ->
  map join_space groups = concat groups.
Proof.
  induction 1 as [|g groups Hg _ IH]; [reflexivity |].
  destruct g as [|w [|w' rest]]; try discriminate.
  simpl. now rewrite IH.
Qed.

(** With [max_width <= 0], every word of positive width, and a font
    metric under which text put before a word never narrows it, each
    line drawn is one word: the lines are the words. *)
Lemma single_word_lines
    (stringWidth : str -> string -> Z -> Z) (self : t) (text : str)
    (x y max_width : Z) (font : string) (size : Z) (color : Canvas.Color)
    (leading : Z) :
  widens stringWidth font size ->
  max_width <= 0 ->
  (forall w, In w (split text) -> 0 < stringWidth w font size) ->
  output_lines stringWidth self text x y max_width font size color leading
  = split text.
Proof.
  intros Hwid Hmax Hpos. rewrite DrawFacts.output_lines_eq.
  destruct (WrapFacts.wrap_lines_grouping stringWidth font size max_width
              text) as (groups & Hlay).
  pose proof (GroupFacts.grouping_words Hlay) as Hwords.
  destruct Hlay as (Hl & Hc & Hne & Hok).
  rewrite Hl, <- Hc. apply join_singletons.
  rewrite Forall_forall in *. intros g Hg.
  destruct (Nat.lt_trichotomy (length g) 1) as [Hlt | [Heq | Hgt]];
    [| exact Heq |].
  - destruct g; [now elim (Hne [] Hg) | simpl in Hlt; lia].
  - exfalso. pose proof (Hok g Hg Hgt) as Hfit. unfold fits in Hfit.
    destruct (exists_last (Hne g Hg)) as (g' & w & ->).
    pose proof (Hwords _ Hg) as Hgw. apply Forall_app in Hgw as [Hg' _].
    rewrite (join_space_snoc g' w Hg'), app_assoc in Hfit.
    assert (In w (split text)).
    { rewrite <- Hc. apply in_concat. exists (g' ++ [w]). split; auto.
      apply in_or_app. right. now left. }
    pose proof (Hwid (join_space g' ++
                      (if truthy (join_space g') then [SPACE] else [])) w).
    pose proof (Hpos w H). lia.
Qed.

Lemma glyph_sum_app (glyph : string -> char -> Z) (font : string)
    (a b : str) :
  Metric.glyph_sum glyph font (a ++ b)
  = Metric.glyph_sum glyph font a + Metric.glyph_sum glyph font b.
Proof.
  unfold Metric.glyph_sum. induction a as [|ch a IH]; simpl; lia.
Qed.

Lemma glyph_sum_nonneg (glyph : string -> char -> Z) (font : string)
    (a : str) :
  (forall ch, 0 <= glyph font ch) -> 0 <= Metric.glyph_sum glyph font a.
Proof.
  intros Hglyph. unfold Metric.glyph_sum.
  induction a as [|ch a IH]; simpl; [lia |].
  pose proof (Hglyph ch). lia.
Qed.

(** C8, degenerate width.  With the metric of the canvas, the size
    times the sum of the glyph widths of the font, none of them
    negative: for [max_width <= 0] and a text whose every word has
    positive width, [draw_wrapped_text] draws one word per line; the
    lines are the words of the text. *)
Theorem degenerate_max_width
    (glyph : string -> char -> Z) (self : t) (text : str)
    (x y max_width : Z) (font : string) (size : Z) (color : Canvas.Color)
    (leading : Z) :
  (forall ch, 0 <= glyph font ch) ->
  max_width <= 0 ->
  (forall w, In w (split text) -> 0 < Metric.of_glyphs glyph w font size) ->
  output_lines (Metric.of_glyphs glyph) self text x y max_width font size
    color leading
  = split text.
Proof.
  intros Hglyph Hmax Hpos.
  destruct (split text) as [|w0 ws] eqn:Ewords.
  - rewrite DrawFacts.output_lines_eq. unfold wrap_lines.
    now rewrite Ewords.
  - rewrite <- Ewords in *.
    assert (Hsize : 0 < size).
    { assert (Hin : In w0 (split text)) by (rewrite Ewords; now left).
      pose proof (Hpos w0 Hin) as H0. unfold Metric.of_glyphs in H0.
      pose proof (glyph_sum_nonneg glyph font w0 Hglyph). nia. }
    apply single_word_lines; [| exact Hmax | exact Hpos].
    intros a b. unfold Metric.of_glyphs. rewrite glyph_sum_app.
    pose proof (glyph_sum_nonneg glyph font a Hglyph). nia.
Qed.

(** One round of the wrapping loop, when the test line fits and when
    it does not. *)
Ltac round_fits H :=
  unfold wrap_word; cbv beta iota zeta;
  match goal with
  | |- context [?a <=? ?b] =>
      replace (a <=? b) with true by (symmetry; apply Z.leb_le; exact H)
  end; reflexivity.

Ltac round_breaks H :=
  unfold wrap_word; cbv beta iota zeta;
  match goal with
  | |- context [?a <=? ?b] =>
      replace (a <=? b) with false by (symmetry; apply Z.leb_gt; exact H)
  end; reflexivity.

(** C5, the worked example.  With a metric under which two of the
    words fit on a line and three do not, ["the quick brown fox"] is
    drawn as ["the quick"] and ["brown fox"], and with [leading = 14]
    from [y = 100] the call returns 72. *)
Theorem worked_example
    (stringWidth : str -> string -> Z -> Z) (self : t)
    (x max_width : Z) (font : string) (size : Z) (color : Canvas.Color) :
  stringWidth (lit "the quick") font size <= max_width ->
  stringWidth (lit "quick brown") font size <= max_width ->
  stringWidth (lit "brown fox") font size <= max_width ->
  max_width < stringWidth (lit "the quick brown") font size ->
  max_width < stringWidth (lit "quick brown fox") font size ->
  output_lines stringWidth self (lit "the quick brown fox") x 100 max_width
    font size color 14
  = [lit "the quick"; lit "brown fox"] /\
  end_y stringWidth self (lit "the quick brown fox") x 100 max_width
    font size color 14
  = 72.
Proof.
  intros H12 _ H34 H123 _.
  set (step := wrap_word stringWidth font size max_width).
  assert (R1 : step ([], []) (lit "the") = ([], lit "the")).
  { unfold step, wrap_word. cbv beta iota zeta.
    destruct (_ <=? _); reflexivity. }
  assert (R2 : step ([], lit "the") (lit "quick") = ([], lit "the quick"))
    by (unfold step; round_fits H12).
  assert (R3 : step ([], lit "the quick") (lit "brown")
               = ([lit "the quick"], lit "brown"))
    by (unfold step; round_breaks H123).
  assert (R4 : step ([lit "the quick"], lit "brown") (lit "fox")
               = ([lit "the quick"], lit "brown fox"))
    by (unfold step; round_fits H34).
  assert (Hlines : wrap_lines stringWidth (lit "the quick brown fox")
                     max_width font size
                   = [lit "the quick"; lit "brown fox"]).
  { unfold wrap_lines.
    change (split (lit "the quick brown fox"))
      with [lit "the"; lit "quick"; lit "brown"; lit "fox"].
    cbn [fold_left]. subst step. rewrite R1, R2, R3, R4. reflexivity. }
  rewrite DrawFacts.output_lines_eq, DrawFacts.end_y_eq, Hlines.
  split; reflexivity.
Qed.

(** C6, empty and whitespace-only text.  [draw_wrapped_text] returns a
    document and a position for every text; for a text of whitespace
    only it draws no line, leaves the document as it was and returns
    [y]. *)
Theorem whitespace_only
    (stringWidth : str -> string -> Z -> Z) (self : t) (text : str)
    (x y max_width : Z) (font : string) (size : Z) (color : Canvas.Color)
    (leading : Z) :
  all_space text ->
  output_lines stringWidth self text x y max_width font size color leading
  = [] /\
  end_y stringWidth self text x y max_width font size color leading = y /\
  draw_wrapped_text stringWidth self text x y max_width font size color
    leading
  = (self, y).
Proof.
  intros Hspace.
  assert (Hlines : wrap_lines stringWidth text max_width font size = []).
  { unfold wrap_lines, split.
    rewrite (split_from_all_space text Hspace). reflexivity. }
  rewrite DrawFacts.output_lines_eq, DrawFacts.end_y_eq,
    DrawFacts.draw_wrapped_text_eq, Hlines.
  cbn [placed length]. rewrite app_nil_r.
  destruct self as [[st sv pg] n cursor]. cbn.
  repeat split; f_equal; lia.
Qed.

(* ================================================================== *)
(** ** Whitespace runs *)

Module NormalFacts.
Import Normal.

Lemma flush_nil : flush [] = [].
Proof. reflexivity. Qed.

Lemma split_from_collapse (s : str) :
  forall w, split_from w (collapse s) = split_from w s.
Proof.
  induction s as [|ch rest IH]; intros w; [reflexivity |].
  cbn [collapse]. destruct (isspace ch) eqn:Ech.
  - destruct rest as [|ch' rest'].
    + cbn [split_from]. now rewrite space_isspace, Ech.
    + destruct (isspace ch') eqn:Ech'.
      * rewrite IH. cbn [split_from]. rewrite Ech, Ech'.
        now rewrite flush_nil.
      * cbn [split_from]. rewrite space_isspace, Ech, IH.
        cbn [split_from]. now rewrite Ech'.
  - cbn [split_from]. now rewrite Ech, IH.
Qed.

Lemma split_lstrip (s : str) : split (lstrip s) = split s.
Proof.
  unfold split. induction s as [|ch rest IH]; [reflexivity |].
  cbn [lstrip]. destruct (isspace ch) eqn:Ech; [| reflexivity].
  rewrite IH. cbn [split_from]. now rewrite Ech.
Qed.

(** What [lstrip] removes is whitespace. *)
Lemma lstrip_removed (s : str) :
  exists head, all_space head /\ s = head ++ lstrip s.
Proof.
  induction s as [|ch rest (head & Hhead & IH)].
  - exists []. split; [constructor | reflexivity].
  - cbn [lstrip]. destruct (isspace ch) eqn:Ech.
    + exists (ch :: head). split; [now constructor |].
      simpl. now rewrite <- IH.
    + exists []. split; [constructor | reflexivity].
Qed.

Lemma split_rstrip (s : str) : split (rstrip s) = split s.
Proof.
  unfold rstrip.
  destruct (lstrip_removed (rev s)) as (head & Hhead & E).
  apply (f_equal (@rev char)) in E.
  rewrite rev_involutive, rev_app_distr in E.
  rewrite E at 2. unfold split. symmetry.
  apply split_from_space_tail. now apply Forall_rev.
Qed.

Lemma split_from_word (s : str) :
  forall w, w <> [] -> split_from w s <> [].
Proof.
  induction s as [|ch rest IH]; intros w Hw; cbn [split_from].
  - now rewrite flush_word.
  - destruct (isspace ch).
    + now rewrite flush_word.
    + apply IH. intros E. apply app_eq_nil in E as [_ E]. discriminate.
Qed.

Lemma joined_cons (w : str) (ws : list str) (tail : bool) :
  ws <> [] -> joined (w :: ws) tail = w ++ SPACE :: joined ws tail.
Proof.
  destruct ws as [|v ws]; [congruence |]. intros _. unfold joined.
  change (join_space (w :: v :: ws)) with (w ++ SPACE :: join_space (v :: ws)).
  now rewrite <- app_assoc.
Qed.

Lemma behind_snoc (w rest : str) (ch : char) :
  isspace ch = false ->
  behind w (ch :: rest) = behind (w ++ [ch]) rest.
Proof.
  intros Hch. unfold behind. cbn [collapse]. rewrite Hch.
  destruct w as [|a w]; cbn [lstrip app].
  - now rewrite Hch.
  - now rewrite <- app_assoc.
Qed.

(** The collapsed text is the words joined, and a space when the text
    ends in whitespace. *)
Lemma behind_joined (rest : str) :
  forall w, no_space w ->
    behind w rest = joined (split_from w rest) (trailing rest).
Proof.
  induction rest as [|ch r IH]; intros w Hw.
  - destruct w; [reflexivity |]. cbn. now rewrite app_nil_r.
  - destruct (isspace ch) eqn:Ech.
    + destruct r as [|ch' r'].
      * destruct w; cbn; rewrite Ech; reflexivity.
      * assert (Htrail : trailing (ch :: ch' :: r') = trailing (ch' :: r'))
          by reflexivity.
        rewrite Htrail. destruct (isspace ch') eqn:Ech'.
        -- assert (E : behind w (ch :: ch' :: r') = behind w (ch' :: r')).
           { unfold behind. cbn [collapse]. now rewrite Ech, Ech'. }
           rewrite E, IH by exact Hw. cbn [split_from].
           now rewrite Ech, Ech', flush_nil.
        -- rewrite (split_from_cons w ch), Ech.
           destruct w as [|a w].
           ++ rewrite flush_nil. cbn [app]. rewrite <- IH by constructor.
              unfold behind. cbn [collapse]. rewrite Ech, Ech'.
              cbn [lstrip]. now rewrite space_isspace.
           ++ rewrite flush_word by discriminate. cbn [app].
              rewrite joined_cons.
              ** rewrite <- IH by constructor.
                 unfold behind. cbn [collapse]. rewrite Ech, Ech'.
                 cbn [lstrip]. now rewrite Ech'.
              ** rewrite split_from_cons, Ech'.
                 apply split_from_word. discriminate.
    + rewrite (behind_snoc w r ch Ech). cbn [split_from]. rewrite Ech.
      rewrite IH.
      * destruct r; [| reflexivity]. cbn [trailing]. now rewrite Ech.
      * apply Forall_app. split; [exact Hw | now repeat constructor].
Qed.

Lemma rstrip_space (s : str) (ch : char) :
  isspace ch = true -> rstrip (s ++ [ch]) = rstrip s.
Proof.
  intros Hch. unfold rstrip. rewrite rev_app_distr. cbn [rev app lstrip].
  now rewrite Hch.
Qed.

Lemma rstrip_join (ws : list str) :
  Forall is_word ws -> rstrip (join_space ws) = join_space ws.
Proof.
  intros Hws. destruct ws as [|w ws] using rev_ind; [reflexivity |].
  apply Forall_app in Hws as [Hws Hw]. apply Forall_inv in Hw as [Hne Hw].
  rewrite (join_space_snoc ws w Hws), app_assoc.
  destruct w as [|a w] using rev_ind; [congruence |].
  apply Forall_app in Hw as [_ Ha]. apply Forall_inv in Ha.
  rewrite app_assoc. unfold rstrip. rewrite rev_app_distr.
  cbn [rev app lstrip]. rewrite Ha. cbn [rev].
  now rewrite rev_involutive.
Qed.

(** The normal form is the words joined by single spaces:
    [" ".join(s.split())]. *)
Lemma normalize_join (s : str) : normalize s = join_space (split s).
Proof.
  unfold normalize. change (lstrip (collapse s)) with (behind [] s).
  rewrite behind_joined by constructor. fold (split s).
  pose proof (split_words s) as Hws. unfold joined.
  destruct (split s) as [|w ws] eqn:E; [reflexivity |].
  destruct (trailing s).
  - rewrite rstrip_space by apply space_isspace. now apply rstrip_join.
  - rewrite app_nil_r. now apply rstrip_join.
Qed.

Lemma split_normalize (s : str) : split (normalize s) = split s.
Proof.
  unfold normalize. rewrite split_rstrip, split_lstrip.
  apply split_from_collapse.
Qed.

End NormalFacts.

(** C7, runs of whitespace.  [draw_wrapped_text] does for a text what
    it does for the text with every run of whitespace collapsed to one
    space and the whitespace at both ends removed, which is
    [" ".join(text.split())]: the same lines at the same places, the
    same returned position. *)
Theorem whitespace_runs
    (stringWidth : str -> string -> Z -> Z) (self : t) (text : str)
    (x y max_width : Z) (font : string) (size : Z) (color : Canvas.Color)
    (leading : Z) :
  Normal.normalize text = join_space (split text) /\
  output_lines stringWidth self text x y max_width font size color leading
  = output_lines stringWidth self (Normal.normalize text) x y max_width
      font size color leading /\
  end_y stringWidth self text x y max_width font size color leading
  = end_y stringWidth self (Normal.normalize text) x y max_width font size
      color leading /\
  draw_wrapped_text stringWidth self text x y max_width font size color
    leading
  = draw_wrapped_text stringWidth self (Normal.normalize text) x y
      max_width font size color leading.
Proof.
  assert (E : draw_wrapped_text stringWidth self text x y max_width font
                size color leading
              = draw_wrapped_text stringWidth self (Normal.normalize text)
                  x y max_width font size color leading).
  { unfold draw_wrapped_text, wrap_lines.
    now rewrite NormalFacts.split_normalize. }
  split; [apply NormalFacts.normalize_join |].
  unfold output_lines, end_y. now rewrite E.
Qed.

(** The normal form is [" ".join(text.split())] on an example. *)
Example normalize_example :
  Normal.normalize [9; 116; 104; 101; 32; 10; 32; 102; 111; 120; 0x3000]%N
  = lit "the fox".
Proof. reflexivity. Qed.

(** C9, determinism and statelessness.  What [draw_wrapped_text] draws
    and returns depends on its arguments only: from any two documents
    it places the same strings and returns the same position; and it
    leaves the graphics state of the canvas, the page counter and the
    page cursor of the document as they were. *)
Theorem stateless
    (stringWidth : str -> string -> Z -> Z) (self other : t) (text : str)
    (x y max_width : Z) (font : string) (size : Z) (color : Canvas.Color)
    (leading : Z) :
  let r1 :=
    draw_wrapped_text stringWidth self text x y max_width font size color
      leading in
  let r2 :=
    draw_wrapped_text stringWidth other text x y max_width font size color
      leading in
  let again :=
    draw_wrapped_text stringWidth (fst r1) text x y max_width font size
      color leading in
  (emitted self (fst r1) = emitted other (fst r2) /\
   output_lines stringWidth self text x y max_width font size color leading
   = output_lines stringWidth other text x y max_width font size color
       leading /\
   snd r1 = snd r2) /\
  (emitted (fst r1) (fst again) = emitted self (fst r1) /\
   snd again = snd r1) /\
  (Canvas.state (c (fst r1)) = Canvas.state (c self) /\
   Canvas.saved (c (fst r1)) = Canvas.saved (c self) /\
   page_num (fst r1) = page_num self /\
   ERPTrainingDoc.y (fst r1) = ERPTrainingDoc.y self).
Proof.
  intros r1 r2 again. subst r1 r2 again.
  rewrite !DrawFacts.emitted_eq, !DrawFacts.output_lines_eq.
  rewrite !DrawFacts.draw_wrapped_text_eq. cbn.
  repeat split; reflexivity.
Qed.

(* ================================================================== *)
(** ** The truncation loop of [draw_text] *)

Module TruncateFacts.

Lemma shorten_length (text : str) :
  (3 < length text)%nat -> length (shorten text) = (length text - 1)%nat.
Proof.
  intros Hlen. unfold shorten, drop_last4.
  rewrite length_app, firstn_length_le by lia.
  change (length ELLIPSIS) with 3%nat. lia.
Qed.

Section Loop.

Variable stringWidth : str -> string -> Z -> Z.
Variables (font : string) (size max_width : Z).

(** The loop, unrolled once. *)
Lemma truncate_unfold (text : str) :
  truncate stringWidth font size max_width text
  = if too_wide stringWidth font size max_width text
    then truncate stringWidth font size max_width (shorten text)
    else text.
Proof.
  funelim (truncate stringWidth font size max_width text);
    rewrite e; reflexivity.
Qed.

(** The loop stops: it runs a number of rounds bounded by the length
    of the text, each round one character shorter, and what it
    returns fails the test of the loop. *)
Lemma truncate_rounds (text : str) :
  exists n : nat,
    rounds text (truncate stringWidth font size max_width text) n /\
    too_wide stringWidth font size max_width
      (truncate stringWidth font size max_width text) = false.
Proof.
  remember (length text) as m eqn:Hm. revert text Hm.
  induction m as [m IH] using lt_wf_ind. intros text Hm.
  rewrite truncate_unfold.
  destruct (too_wide stringWidth font size max_width text) eqn:Etest.
  - assert (Hlen : (3 < length text)%nat).
    { unfold too_wide in Etest.
      apply andb_true_iff in Etest as [_ H]. now apply Nat.ltb_lt. }
    pose proof (shorten_length text Hlen) as Hshort.
    destruct (IH (length (shorten text)) ltac:(lia) (shorten text) eq_refl)
      as (n & (Hiter & Hn & Hl) & Hstop).
    exists (S n). split; [| exact Hstop]. repeat split.
    + rewrite Nat.iter_succ_r. exact Hiter.
    + lia.
    + lia.
  - exists 0%nat. split; [| exact Etest]. repeat split; simpl; lia.
Qed.

Lemma stopped (text : str) :
  too_wide stringWidth font size max_width text = false ->
  stringWidth text font size <= max_width \/ (length text <= 3)%nat.
Proof.
  unfold too_wide. intros H. apply andb_false_iff in H as [H | H].
  - left. now apply Z.ltb_ge.
  - right. now apply Nat.ltb_ge.
Qed.

End Loop.

Lemma rounds_none (text : str) : rounds text text 0.
Proof. repeat split; simpl; lia. Qed.

(** [draw_text] places one string. *)
Lemma draw_text_emitted
    (stringWidth : str -> string -> Z -> Z) (self : t) (text : str)
    (x y : Z) (font : string) (size : Z) (color : Canvas.Color)
    (align : string) (max_width : option Z) :
  map Canvas.op_text
    (emitted self
       (draw_text stringWidth self text x y font size color align
          max_width))
  = [match max_width with
     | Some w =>
         if truthy_width max_width
         then truncate stringWidth font size w text
         else text
     | None => text
     end].
Proof.
  unfold draw_text, emitted.
  destruct (String.eqb align "center"); [| destruct (String.eqb align "right")];
    cbn; rewrite DrawFacts.skipn_own_length; reflexivity.
Qed.

End TruncateFacts.

(** C10 as the code has it.  The truncation loop of [draw_text] stops
    for every text, width and metric, after a number of rounds bounded
    by the length of the text, each of which makes the text one
    character shorter.  When [max_width] is given and not zero, the
    string drawn measures at most [max_width] or has at most three
    characters; when it is [None] or zero the loop is not entered and
    the text is drawn as it is. *)
Theorem truncation_terminates
    (stringWidth : str -> string -> Z -> Z) (self : t) (text : str)
    (x y : Z) (font : string) (size : Z) (color : Canvas.Color)
    (align : string) (max_width : option Z) :
  exists (result : str) (n : nat),
    map Canvas.op_text
      (emitted self
         (draw_text stringWidth self text x y font size color align
            max_width))
    = [result] /\
    rounds text result n /\
    match max_width with
    | Some w =>
        if w =? 0 then result = text
        else stringWidth result font size <= w \/ (length result <= 3)%nat
    | None => result = text
    end.
Proof.
  rewrite TruncateFacts.draw_text_emitted.
  destruct max_width as [w |]; cbn [truthy_width].
  - destruct (w =? 0); cbn [negb].
    + exists text, 0%nat. auto using TruncateFacts.rounds_none.
    + destruct (TruncateFacts.truncate_rounds stringWidth font size w text)
        as (n & Hrounds & Hstop).
      exists (truncate stringWidth font size w text), n.
      auto using TruncateFacts.stopped.
  - exists text, 0%nat. auto using TruncateFacts.rounds_none.
Qed.

(* ================================================================== *)
(** ** Instances *)

(** [width_bound] at ["the quick brown fox"], twelve units wide in a
    fixed-pitch font of one unit: ["the quick"] has two words and
    measures nine. *)
Lemma width_bound_witness :
  In (lit "the quick")
    (output_lines Metric.fixed_pitch blank (lit "the quick brown fox")
       45 100 12 "CrimsonPro" 1 CHARCOAL 14) /\
  (1 < length (split (lit "the quick")))%nat /\
  Metric.fixed_pitch (lit "the quick") "CrimsonPro" 1 <= 12.
Proof.
  assert (H1 : In (lit "the quick")
                 (output_lines Metric.fixed_pitch blank
                    (lit "the quick brown fox") 45 100 12 "CrimsonPro" 1
                    CHARCOAL 14)) by (left; reflexivity).
  assert (H2 : (1 < length (split (lit "the quick")))%nat)
    by (vm_compute; lia).
  exact (conj H1 (conj H2
           (width_bound Metric.fixed_pitch blank (lit "the quick brown fox")
              45 100 12 "CrimsonPro" 1 CHARCOAL 14 (lit "the quick")
              H1 H2))).
Defined.

(** Against C3 for every metric.  A word of one character measures ten
    under [Metric.lone_char] and the join ["a b"] nothing: with
    [max_width = 5] the word ["a"] is wider than the line and yet
    shares it with ["b"]. *)
Lemma overlong_word_joined :
  let lines :=
    output_lines Metric.lone_char blank (lit "a b") 45 100 5 "CrimsonPro"
      10 CHARCOAL 14 in
  In (lit "a") (split (lit "a b")) /\
  5 < Metric.lone_char (lit "a") "CrimsonPro" 10 /\
  lines = [lit "a b"] /\
  ~ In (lit "a") lines.
Proof.
  cbv zeta. repeat split.
  - left. reflexivity.
  - intros [H | []]. discriminate H.
Qed.

(** [overlong_word_alone] at ["a tremendous b"], five units wide in a
    fixed-pitch font of one unit. *)
Lemma overlong_word_alone_witness :
  In (lit "tremendous")
    (output_lines Metric.fixed_pitch blank (lit "a tremendous b") 45 100 5
       "CrimsonPro" 1 CHARCOAL 14).
Proof.
  assert (H1 : monotone Metric.fixed_pitch "CrimsonPro" 1)
    by (apply fixed_pitch_monotone; lia).
  assert (H2 : In (lit "tremendous") (split (lit "a tremendous b")))
    by (right; left; reflexivity).
  assert (H3 : 5 < Metric.fixed_pitch (lit "tremendous") "CrimsonPro" 1)
    by reflexivity.
  exact (proj1
           (overlong_word_alone Metric.fixed_pitch blank
              (lit "a tremendous b") 45 100 5 "CrimsonPro" 1 CHARCOAL 14
              (lit "tremendous") H1 H2 H3)).
Defined.

(** [worked_example] in a fixed-pitch font of one unit, twelve units
    wide. *)
Lemma worked_example_witness :
  output_lines Metric.fixed_pitch blank (lit "the quick brown fox") 45 100
    12 "CrimsonPro" 1 CHARCOAL 14
  = [lit "the quick"; lit "brown fox"] /\
  end_y Metric.fixed_pitch blank (lit "the quick brown fox") 45 100 12
    "CrimsonPro" 1 CHARCOAL 14
  = 72.
Proof.
  apply (worked_example Metric.fixed_pitch blank 45 12 "CrimsonPro" 1
           CHARCOAL); vm_compute;
    first [reflexivity | intro H; discriminate H].
Defined.

(** [whitespace_only] at a space, a tab, a line feed and an
    ideographic space. *)
Lemma whitespace_only_witness :
  output_lines Metric.fixed_pitch blank [32; 9; 10; 0x3000]%N 45 100 12
    "CrimsonPro" 1 CHARCOAL 14
  = [] /\
  end_y Metric.fixed_pitch blank [32; 9; 10; 0x3000]%N 45 100 12
    "CrimsonPro" 1 CHARCOAL 14
  = 100 /\
  draw_wrapped_text Metric.fixed_pitch blank [32; 9; 10; 0x3000]%N 45 100
    12 "CrimsonPro" 1 CHARCOAL 14
  = (blank, 100).
Proof.
  apply (whitespace_only Metric.fixed_pitch blank [32; 9; 10; 0x3000]%N
           45 100 12 "CrimsonPro" 1 CHARCOAL 14).
  repeat constructor.
Defined.

(** [degenerate_max_width] at ["to be"], nothing wide, in Courier at
    size 10. *)
Lemma degenerate_max_width_witness :
  output_lines (Metric.of_glyphs Metric.courier) blank (lit "to be") 45 100
    0 "Courier" 10 CHARCOAL 14
  = [lit "to"; lit "be"].
Proof.
  apply (degenerate_max_width Metric.courier blank (lit "to be") 45 100 0
           "Courier" 10 CHARCOAL 14).
  - intros ch. unfold Metric.courier. lia.
  - lia.
  - intros w [<- | [<- | []]]; reflexivity.
Defined.

(** Against C10 for every width.  [max_width = 0] is no width to
    [draw_text]: ["hello"], five units wide and five characters long,
    is drawn whole. *)
Lemma drawn_whole_at_zero :
  map Canvas.op_text
    (emitted blank
       (draw_text Metric.fixed_pitch blank (lit "hello") 45 100
          "CrimsonPro" 1 CHARCOAL "left" (Some 0)))
  = [lit "hello"] /\
  ~ (Metric.fixed_pitch (lit "hello") "CrimsonPro" 1 <= 0 \/
     (length (lit "hello") <= 3)%nat).
Proof.
  split; [reflexivity |].
  intros [H | H]; vm_compute in H; [now apply H | lia].
Qed.

(* ================================================================== *)
(** ** Greedy breaks *)

Module GreedyFacts.

Section Loop.

Variable stringWidth : str -> string -> Z -> Z.
Variables (font : string) (size max_width : Z).

Local Abbreviation step := (wrap_word stringWidth font size max_width).
Local Abbreviation forced := (forced stringWidth font size max_width).
Local Abbreviation greedy := (greedy stringWidth font size max_width).

(** A group can follow the last one when its first word did not fit
    there. *)
Lemma forced_snoc (gs : list (list str)) (g : list str) (w : str) :
  forced (gs ++ [g]) ->
  max_width < stringWidth (join_space (g ++ [w])) font size ->
  forced ((gs ++ [g]) ++ [[w]]).
Proof.
  intros Hf Hw. induction gs as [|a gs IH].
  - simpl. auto.
  - destruct Hf as [Hlink Hrest]. split; [| now apply IH].
    destruct gs; exact Hlink.
Qed.

(** The last group can grow. *)
Lemma forced_grow (gs : list (list str)) (g : list str) (w : str) :
  g <> [] -> forced (gs ++ [g]) -> forced (gs ++ [g ++ [w]]).
Proof.
  intros Hg Hf. induction gs as [|a gs IH].
  - simpl. auto.
  - destruct Hf as [Hlink Hrest]. split; [| now apply IH].
    destruct gs as [|b gs]; [| exact Hlink].
    destruct g as [|v g]; [congruence | exact Hlink].
Qed.

Lemma greedy_start : greedy [] ([], []) [] [].
Proof.
  constructor; [apply WrapFacts.layout_start | simpl; auto | auto].
Qed.

Lemma greedy_step (seen : list str) (w : str) st gs g :
  Forall is_word seen ->
  greedy seen st gs g ->
  exists gs' g', greedy (seen ++ [w]) (step st w) gs' g'.
Proof.
  intros Hseen [[Hl Hc Hs Hne Hok Hg] Hf Hstart]. destruct st as [lines cur].
  simpl in Hl, Hc. subst lines cur.
  assert (Hgw : Forall is_word g).
  { subst seen. apply Forall_app in Hseen. tauto. }
  unfold wrap_word. cbv beta iota zeta.
  rewrite <- (join_space_snoc g w Hgw).
  destruct (stringWidth (join_space (g ++ [w])) font size <=? max_width)
    eqn:Efit.
  - exists gs, (g ++ [w]). constructor.
    + constructor; simpl; auto.
      * rewrite app_assoc. now f_equal.
      * intros _. apply Z.leb_le. exact Efit.
    + destruct g as [|v g].
      * rewrite (Hstart eq_refl). simpl. auto.
      * apply forced_grow; [discriminate | exact Hf].
    + intros E. apply app_eq_nil in E as [_ E]. discriminate.
  - apply Z.leb_gt in Efit. destruct (truthy (join_space g)) eqn:Ecur.
    + exists (gs ++ [g]), [w]. constructor.
      * constructor; simpl.
        -- now rewrite map_app.
        -- reflexivity.
        -- subst seen. rewrite concat_app. simpl. now rewrite app_nil_r.
        -- apply Forall_app. split; [exact Hne |].
           constructor; [| constructor]. intros ->. discriminate.
        -- apply Forall_app. split; [exact Hok | now repeat constructor].
        -- apply WrapFacts.ok_single.
      * now apply forced_snoc.
      * discriminate.
    + apply truthy_false in Ecur.
      apply join_space_nil in Ecur; [| exact Hgw]. subst g.
      rewrite (Hstart eq_refl) in *. exists [], [w]. constructor.
      * constructor; simpl; auto.
        -- simpl in Hs. now subst seen.
        -- apply WrapFacts.ok_single.
      * simpl. auto.
      * discriminate.
Qed.

Lemma greedy_loop (ws : list str) :
  forall seen st gs g,
    Forall is_word (seen ++ ws) ->
    greedy seen st gs g ->
    exists gs' g', greedy (seen ++ ws) (fold_left step ws st) gs' g'.
Proof.
  induction ws as [|w ws IH]; intros seen st gs g Hw Hgr; simpl.
  - rewrite app_nil_r. eauto.
  - assert (Hseen : Forall is_word seen).
    { apply Forall_app in Hw. tauto. }
    destruct (@greedy_step seen w st gs g Hseen Hgr) as (gs1 & g1 & Hgr1).
    replace (seen ++ w :: ws) with ((seen ++ [w]) ++ ws) in *
      by (rewrite <- app_assoc; reflexivity).
    eapply IH; eauto.
Qed.

(** The lines of [draw_wrapped_text] lay the words out in groups
    whose breaks were all forced. *)
Lemma wrap_lines_greedy (text : str) :
  exists groups,
    grouping stringWidth font size max_width (split text)
      (wrap_lines stringWidth text max_width font size) groups /\
    forced groups.
Proof.
  unfold wrap_lines.
  destruct (@greedy_loop (split text) [] _ _ _ (split_words text)
              greedy_start)
    as (gs & g & [[Hl Hc Hs Hne Hok Hg] Hf Hstart]).
  simpl in Hs.
  destruct (fold_left step (split text) ([], [])) as [lines cur].
  simpl in Hl, Hc. subst lines cur.
  assert (Hgw : Forall is_word g).
  { pose proof (split_words text) as H. rewrite <- Hs in H.
    apply Forall_app in H. tauto. }
  destruct (truthy (join_space g)) eqn:Ecur.
  - exists (gs ++ [g]). split; [| exact Hf]. repeat split.
    + now rewrite map_app.
    + rewrite concat_app. simpl. now rewrite app_nil_r.
    + apply Forall_app. split; [exact Hne |].
      constructor; [| constructor]. intros ->. discriminate.
    + apply Forall_app. split; [exact Hok | now repeat constructor].
  - apply truthy_false in Ecur.
    apply join_space_nil in Ecur; [| exact Hgw]. subst g.
    rewrite (Hstart eq_refl) in *. exists []. simpl in *.
    repeat split; auto.
Qed.

(** Two groups in a row. *)
Lemma forced_nth (groups : list (list str)) :
  forced groups ->
  forall (i : nat) (g : list str) (w : str) (rest : list str),
    nth_error groups i = Some g ->
    nth_error groups (S i) = Some (w :: rest) ->
    max_width < stringWidth (join_space (g ++ [w])) font size.
Proof.
  induction groups as [|a groups IH]; intros Hf i g w rest Hi Hsi.
  - destruct i; discriminate.
  - destruct Hf as [Hlink Hrest]. destruct i as [|i].
    + injection Hi as ->. destruct groups as [|b groups]; [discriminate |].
      injection Hsi as ->. exact Hlink.
    + exact (IH Hrest i g w rest Hi Hsi).
Qed.

End Loop.

End GreedyFacts.

(* ================================================================== *)
(** ** More on the lines of [draw_wrapped_text] *)

Lemma join_space_word (g : list str) :
  Forall is_word g -> g <> [] -> truthy (join_space g) = true.
Proof.
  intros Hg Hne. apply truthy_true. intros E.
  now apply join_space_nil in E.
Qed.

Lemma join_space_app (a b : list str) :
  a <> [] -> b <> [] ->
  join_space (a ++ b) = join_space a ++ SPACE :: join_space b.
Proof.
  intros Ha Hb. induction a as [|v a IH]; [congruence |].
  destruct a as [|v' a'].
  - destruct b; [congruence | reflexivity].
  - change (join_space ((v :: v' :: a') ++ b))
      with (v ++ SPACE :: join_space ((v' :: a') ++ b)).
    rewrite IH by discriminate.
    change (join_space (v :: v' :: a'))
      with (v ++ SPACE :: join_space (v' :: a')).
    now rewrite <- app_assoc.
Qed.

Lemma groups_count (groups : list (list str)) :
  Forall (fun g => g <> []) groups ->
  (length groups <= length (concat groups))%nat.
Proof.
  induction 1 as [|g groups Hg _ IH]; simpl; [lia |].
  rewrite length_app. destruct g; [congruence | simpl; lia].
Qed.

(** X1, greedy breaks.  Between two lines in a row the break was
    forced: the line above, a space and the first word of the line
    below measure more than [max_width]. *)
Theorem breaks_are_forced
    (stringWidth : str -> string -> Z -> Z) (self : t) (text : str)
    (x y max_width : Z) (font : string) (size : Z) (color : Canvas.Color)
    (leading : Z) (i : nat) (above below : str) :
  nth_error
    (output_lines stringWidth self text x y max_width font size color
       leading) i
  = Some above ->
  nth_error
    (output_lines stringWidth self text x y max_width font size color
       leading) (S i)
  = Some below ->
  exists (w : str) (rest : list str),
    split below = w :: rest /\
    max_width < stringWidth (above ++ SPACE :: w) font size.
Proof.
  rewrite DrawFacts.output_lines_eq.
  destruct (GreedyFacts.wrap_lines_greedy stringWidth font size max_width
              text) as (groups & Hlay & Hforced).
  pose proof (GroupFacts.grouping_words Hlay) as Hwords.
  destruct Hlay as (Hl & Hc & Hne & Hok). rewrite Hl, !nth_error_map.
  destruct (nth_error groups i) as [ga |] eqn:Ea; [| discriminate].
  destruct (nth_error groups (S i)) as [gb |] eqn:Eb; [| discriminate].
  cbn [option_map]. intros [= <-] [= <-].
  rewrite Forall_forall in Hwords, Hne.
  pose proof (nth_error_In _ _ Ea) as Hina.
  pose proof (nth_error_In _ _ Eb) as Hinb.
  destruct gb as [|w rest]; [now elim (Hne [] Hinb) |].
  exists w, rest. split; [now apply split_join, Hwords |].
  pose proof (GreedyFacts.forced_nth stringWidth font size max_width groups
                Hforced i ga w rest Ea Eb) as Hbreak.
  rewrite (join_space_snoc ga w (Hwords ga Hina)) in Hbreak.
  rewrite (join_space_word ga (Hwords ga Hina) (Hne ga Hina)) in Hbreak.
  exact Hbreak.
Qed.

(** X2, shape of a line.  A line drawn by [draw_wrapped_text] is never
    empty and is its own words joined by single spaces: no whitespace
    at either end, no run of whitespace inside. *)
Theorem lines_are_normal
    (stringWidth : str -> string -> Z -> Z) (self : t) (text : str)
    (x y max_width : Z) (font : string) (size : Z) (color : Canvas.Color)
    (leading : Z) (line : str) :
  In line
    (output_lines stringWidth self text x y max_width font size color
       leading) ->
  line <> [] /\
  line = join_space (split line) /\
  Normal.normalize line = line.
Proof.
  rewrite DrawFacts.output_lines_eq. intros Hin.
  destruct (WrapFacts.wrap_lines_grouping stringWidth font size max_width
              text) as (groups & Hlay).
  pose proof (GroupFacts.grouping_words Hlay) as Hwords.
  destruct (GroupFacts.grouping_line Hlay line Hin) as (g & Hg & E & Hs).
  destruct Hlay as (_ & _ & Hne & _).
  rewrite Forall_forall in Hwords, Hne.
  assert (Hjoin : line = join_space (split line)) by now rewrite Hs.
  repeat split.
  - rewrite E. apply truthy_true, join_space_word; auto.
  - exact Hjoin.
  - rewrite NormalFacts.normalize_join. now symmetry.
Qed.

(** X3, number of lines.  [draw_wrapped_text] draws at most as many
    lines as the text has words, and none only when it has none. *)
Theorem line_count
    (stringWidth : str -> string -> Z -> Z) (self : t) (text : str)
    (x y max_width : Z) (font : string) (size : Z) (color : Canvas.Color)
    (leading : Z) :
  let lines :=
    output_lines stringWidth self text x y max_width font size color
      leading in
  (length lines <= length (split text))%nat /\
  (lines = [] <-> split text = []).
Proof.
  intros lines. subst lines. rewrite DrawFacts.output_lines_eq.
  destruct (WrapFacts.wrap_lines_grouping stringWidth font size max_width
              text) as (groups & Hl & Hc & Hne & _).
  pose proof (groups_count groups Hne) as Hcount. rewrite Hc in Hcount.
  rewrite Hl, length_map.
  split; [exact Hcount |].
  rewrite <- Hc. split.
  - intros E. apply map_eq_nil in E. now subst groups.
  - intros E. destruct groups as [|g groups]; [reflexivity |].
    apply Forall_inv in Hne. simpl in E. apply app_eq_nil in E as [E _].
    congruence.
Qed.

(** X4, text that fits.  Under a metric for which a string is at least
    as wide as each of its parts, a text with at least one word whose
    words joined by single spaces measure at most [max_width] is drawn
    on one line, as those joined words. *)
Theorem fits_on_one_line
    (stringWidth : str -> string -> Z -> Z) (self : t) (text : str)
    (x y max_width : Z) (font : string) (size : Z) (color : Canvas.Color)
    (leading : Z) :
  monotone stringWidth font size ->
  split text <> [] ->
  stringWidth (join_space (split text)) font size <= max_width ->
  output_lines stringWidth self text x y max_width font size color leading
  = [join_space (split text)].
Proof.
  intros Hmono Hwords Hfit. rewrite DrawFacts.output_lines_eq.
  destruct (GreedyFacts.wrap_lines_greedy stringWidth font size max_width
              text) as (groups & (Hl & Hc & Hne & _) & Hforced).
  rewrite Hl. destruct groups as [|g1 [|g2 groups]].
  - simpl in Hc. congruence.
  - simpl in Hc. rewrite app_nil_r in Hc. now subst g1.
  - exfalso. destruct Hforced as [Hbreak _].
    apply Forall_inv_tail, Forall_inv in Hne.
    destruct g2 as [|w g2]; [congruence |].
    rewrite <- Hc in Hfit. cbn [concat] in Hfit.
    change (w :: g2) with ([w] ++ g2) in Hfit.
    rewrite <- app_assoc, app_assoc in Hfit.
    destruct (g2 ++ concat groups) as [|v tail].
    + rewrite app_nil_r in Hfit. lia.
    + rewrite join_space_app in Hfit;
        [| intros E; apply app_eq_nil in E as [_ E]; discriminate
         | discriminate].
      pose proof (proj1 (Hmono (join_space (g1 ++ [w]))
                           (SPACE :: join_space (v :: tail)))).
      lia.
Qed.

(** X5, no overflow.  When every word of the text measures at most
    [max_width], so does every line [draw_wrapped_text] draws. *)
Theorem no_overflow
    (stringWidth : str -> string -> Z -> Z) (self : t) (text : str)
    (x y max_width : Z) (font : string) (size : Z) (color : Canvas.Color)
    (leading : Z) (line : str) :
  (forall w, In w (split text) -> stringWidth w font size <= max_width) ->
  In line
    (output_lines stringWidth self text x y max_width font size color
       leading) ->
  stringWidth line font size <= max_width.
Proof.
  rewrite DrawFacts.output_lines_eq. intros Hword Hin.
  destruct (WrapFacts.wrap_lines_grouping stringWidth font size max_width
              text) as (groups & Hlay).
  destruct (GroupFacts.grouping_line Hlay line Hin) as (g & Hg & -> & _).
  destruct Hlay as (_ & Hc & Hne & Hok).
  rewrite Forall_forall in Hok, Hne.
  destruct g as [|w [|w' rest]].
  - now elim (Hne [] Hg).
  - apply Hword. rewrite <- Hc. apply in_concat. exists [w].
    split; [exact Hg | now left].
  - apply (Hok _ Hg). simpl. lia.
Qed.

(* ================================================================== *)
(** ** More on [draw_text] *)

Module TextFacts.

(** [draw_text] in one equation. *)
Lemma draw_text_eq
    (stringWidth : str -> string -> Z -> Z) (self : t) (text : str)
    (x y : Z) (font : string) (size : Z) (color : Canvas.Color)
    (align : string) (max_width : option Z) :
  draw_text stringWidth self text x y font size color align max_width
  = mk (Canvas.mk (Canvas.state (c self)) (Canvas.saved (c self))
          (Canvas.page (c self)
           ++ [Canvas.mkOp (anchor_of align) x y
                 (fitted stringWidth font size max_width text)
                 (Canvas.mkGState font size color)]))
       (page_num self) (ERPTrainingDoc.y self).
Proof.
  unfold draw_text, anchor_of, fitted.
  destruct (String.eqb align "center");
    [| destruct (String.eqb align "right")]; reflexivity.
Qed.

(** Rounds of the truncation loop keep a prefix of the text and end
    it in the ellipsis. *)
Lemma shorten_rounds (text : str) (n : nat) :
  (S n <= length text - 3)%nat ->
  Nat.iter (S n) shorten text
  = firstn (length text - 3 - S n) text ++ ELLIPSIS.
Proof.
  induction n as [|n IH]; intros Hn.
  - cbn [Nat.iter]. unfold shorten, drop_last4.
    now replace (length text - 3 - 1)%nat with (length text - 4)%nat by lia.
  - rewrite Nat.iter_succ, IH by lia. unfold shorten at 1, drop_last4.
    rewrite length_app, firstn_app, length_firstn.
    change (length ELLIPSIS) with 3%nat.
    rewrite firstn_firstn.
    replace (Init.Nat.min (length text - 3 - S n) (length text) + 3 - 4
             - Init.Nat.min (length text - 3 - S n) (length text))%nat
      with 0%nat by lia.
    cbn [firstn]. rewrite app_nil_r.
    match goal with
    | |- firstn ?a _ ++ _ = firstn ?b _ ++ _ =>
        now replace a with b by lia
    end.
Qed.

End TextFacts.

(** X6, frame of [draw_text].  [draw_text] adds one string to the page
    and takes nothing away: it is placed at [(x, y)] in the requested
    font, size and colour, anchored by [align]; the graphics state and
    its stack, the page counter and the cursor are as before. *)
Theorem draw_text_frame
    (stringWidth : str -> string -> Z -> Z) (self : t) (text : str)
    (x y : Z) (font : string) (size : Z) (color : Canvas.Color)
    (align : string) (max_width : option Z) :
  let after :=
    draw_text stringWidth self text x y font size color align max_width in
  exists drawn : str,
    Canvas.page (c after)
    = Canvas.page (c self)
      ++ [Canvas.mkOp (anchor_of align) x y drawn
            (Canvas.mkGState font size color)] /\
    Canvas.state (c after) = Canvas.state (c self) /\
    Canvas.saved (c after) = Canvas.saved (c self) /\
    page_num after = page_num self /\
    ERPTrainingDoc.y after = ERPTrainingDoc.y self.
Proof.
  intros after. subst after. rewrite TextFacts.draw_text_eq.
  eexists. cbn. repeat split; reflexivity.
Qed.

(** X7, shape of a truncated string.  What [draw_text] draws is the
    text itself, or a shorter string: a prefix of the text followed by
    ['...']. *)
Theorem truncated_shape
    (stringWidth : str -> string -> Z -> Z) (self : t) (text : str)
    (x y : Z) (font : string) (size : Z) (color : Canvas.Color)
    (align : string) (max_width : option Z) :
  exists result : str,
    map Canvas.op_text
      (emitted self
         (draw_text stringWidth self text x y font size color align
            max_width))
    = [result] /\
    (result = text \/
     result = firstn (length result - 3) text ++ ELLIPSIS /\
     (length result < length text)%nat).
Proof.
  rewrite TruncateFacts.draw_text_emitted. eexists. split; [reflexivity |].
  destruct max_width as [w |]; [| now left].
  destruct (truthy_width (Some w)); [| now left].
  destruct (TruncateFacts.truncate_rounds stringWidth font size w text)
    as ([|n] & (Hiter & Hn & Hlen) & _).
  - left. exact Hiter.
  - right. rewrite Hlen. split; [| lia].
    rewrite Hiter at 1. rewrite TextFacts.shorten_rounds by exact Hn.
    do 2 f_equal. lia.
Qed.

(** X8, truncation is stable.  Drawing again, with the same width and
    font, the string [draw_text] drew draws that string unchanged. *)
Theorem truncation_is_stable
    (stringWidth : str -> string -> Z -> Z) (self other : t) (text : str)
    (x y : Z) (font : string) (size : Z) (color : Canvas.Color)
    (align : string) (max_width : option Z) :
  exists result : str,
    map Canvas.op_text
      (emitted self
         (draw_text stringWidth self text x y font size color align
            max_width))
    = [result] /\
    map Canvas.op_text
      (emitted other
         (draw_text stringWidth other result x y font size color align
            max_width))
    = [result].
Proof.
  rewrite TruncateFacts.draw_text_emitted. eexists. split; [reflexivity |].
  rewrite TruncateFacts.draw_text_emitted. f_equal.
  destruct max_width as [w |]; [| reflexivity].
  destruct (truthy_width (Some w)); [| reflexivity].
  destruct (TruncateFacts.truncate_rounds stringWidth font size w text)
    as (n & _ & Hstop).
  rewrite (TruncateFacts.truncate_unfold stringWidth font size w
             (truncate stringWidth font size w text)).
  now rewrite Hstop.
Qed.

(* ================================================================== *)
(** ** Content elements *)

Module ContentFacts.

Section Elements.

Variable stringWidth : str -> string -> Z -> Z.
Variable W : Z.

(** [draw_bullet] in one equation. *)
Lemma draw_bullet_eq (self : t) (text : str) (indent : Z)
    (bullet_char : str) :
  let lines :=
    wrap_lines stringWidth text (CONTENT_W W - indent - 2) "CrimsonPro" 10 in
  draw_bullet stringWidth W self text indent bullet_char
  = mk (Canvas.mk (Canvas.state (c self)) (Canvas.saved (c self))
          (Canvas.page (c self)
           ++ Canvas.mkOp Canvas.AnchorLeft (MARGIN + indent - 10)
                (ERPTrainingDoc.y self) bullet_char
                (Canvas.mkGState "CrimsonPro" 10 SLATE)
              :: placed (Canvas.mkGState "CrimsonPro" 10 CHARCOAL)
                   (MARGIN + indent + 2) (ERPTrainingDoc.y self) 14 lines))
       (page_num self)
       (ERPTrainingDoc.y self - 14 * Z.of_nat (length lines) - 3).
Proof.
  intros lines. unfold draw_bullet.
  rewrite TextFacts.draw_text_eq, DrawFacts.draw_wrapped_text_eq.
  fold lines. cbn. rewrite <- app_assoc. reflexivity.
Qed.

End Elements.

End ContentFacts.


(** X10, room for a bullet.  When [check_space] grants 14 units per
    word of the text and 3 more, the cursor after [draw_bullet] is
    still above the line [check_space] guards: at least [MARGIN + 20]. *)
Theorem bullet_keeps_margin
    (stringWidth : str -> string -> Z -> Z) (W : Z) (self : t)
    (text : str) (indent : Z) (bullet_char : str) :
  check_space self (14 * Z.of_nat (length (split text)) + 3) = true ->
  MARGIN + 20
  <= ERPTrainingDoc.y
       (draw_bullet stringWidth W self text indent bullet_char) /\
  check_space (draw_bullet stringWidth W self text indent bullet_char) 0
  = true.
Proof.
  unfold check_space. rewrite ContentFacts.draw_bullet_eq.
  cbn [ERPTrainingDoc.y].
  destruct (WrapFacts.wrap_lines_grouping stringWidth "CrimsonPro" 10
              (CONTENT_W W - indent - 2) text) as (groups & Hl & Hc & Hne & _).
  pose proof (groups_count groups Hne) as Hcount.
  rewrite Hc in Hcount. rewrite Hl, length_map.
  destruct (_ <? _) eqn:E1; [discriminate |]. intros _.
  apply Z.ltb_ge in E1.
  assert (Hy : MARGIN + 20
               <= ERPTrainingDoc.y self - 14 * Z.of_nat (length groups) - 3)
    by lia.
  split; [exact Hy |].
  destruct (_ <? _) eqn:E2; [| reflexivity].
  apply Z.ltb_lt in E2. lia.
Qed.

(** X11, code text.  [draw_code_text] draws the text as it is, however
    wide, as one string at the cursor, and moves the cursor down by
    12: the cursor is still above the line [check_space] guards
    exactly when [check_space] granted 12 units before. *)
Theorem code_text_layout
    (stringWidth : str -> string -> Z -> Z) (self : t) (text : str)
    (indent : Z) :
  let after := draw_code_text stringWidth self text indent in
  emitted self after
  = [Canvas.mkOp Canvas.AnchorLeft (MARGIN + indent)
       (ERPTrainingDoc.y self) text (Canvas.mkGState "GeistMono" 8 NAVY_LIGHT)]
  /\
  ERPTrainingDoc.y after = ERPTrainingDoc.y self - 12 /\
  check_space after 0 = check_space self 12.
Proof.
  intros after. subst after. unfold draw_code_text.
  rewrite TextFacts.draw_text_eq. unfold emitted, check_space.
  cbn [c Canvas.page ERPTrainingDoc.y set_y].
  rewrite DrawFacts.skipn_own_length. repeat split.
  now rewrite Z.sub_0_r.
Qed.


(* ================================================================== *)
(** ** More instances *)

(** [breaks_are_forced] in the worked example: ["the quick brown"]
    measures fifteen, more than twelve. *)
Lemma breaks_are_forced_witness :
  exists (w : str) (rest : list str),
    split (lit "brown fox") = w :: rest /\
    12 < Metric.fixed_pitch (lit "the quick" ++ SPACE :: w) "CrimsonPro" 1.
Proof.
  apply (breaks_are_forced Metric.fixed_pitch blank
           (lit "the quick brown fox") 45 100 12 "CrimsonPro" 1 CHARCOAL 14
           0 (lit "the quick") (lit "brown fox")); reflexivity.
Defined.

(** [lines_are_normal] at the first line of a text with runs of
    whitespace. *)
Lemma lines_are_normal_witness :
  lit "the quick" <> [] /\
  lit "the quick" = join_space (split (lit "the quick")) /\
  Normal.normalize (lit "the quick") = lit "the quick".
Proof.
  apply (lines_are_normal Metric.fixed_pitch blank
           (lit "  the   quick brown  fox ") 45 100 12 "CrimsonPro" 1
           CHARCOAL 14 (lit "the quick")).
  left. reflexivity.
Defined.

(** [fits_on_one_line] at a text of two words and much whitespace,
    five units wide. *)
Lemma fits_on_one_line_witness :
  output_lines Metric.fixed_pitch blank (lit "  to   be ") 45 100 5
    "CrimsonPro" 1 CHARCOAL 14
  = [join_space (split (lit "  to   be "))].
Proof.
  apply (fits_on_one_line Metric.fixed_pitch blank (lit "  to   be ") 45
           100 5 "CrimsonPro" 1 CHARCOAL 14).
  - apply fixed_pitch_monotone. lia.
  - vm_compute. discriminate.
  - vm_compute. discriminate.
Defined.

(** [no_overflow] in the worked example: no word is wider than
    twelve. *)
Lemma no_overflow_witness :
  Metric.fixed_pitch (lit "brown fox") "CrimsonPro" 1 <= 12.
Proof.
  apply (no_overflow Metric.fixed_pitch blank (lit "the quick brown fox")
           45 100 12 "CrimsonPro" 1 CHARCOAL 14 (lit "brown fox")).
  - intros w [<- | [<- | [<- | [<- | []]]]]; vm_compute; discriminate.
  - right. left. reflexivity.
Defined.

(** [bullet_keeps_margin] at the top of a page 595 units wide. *)
Lemma bullet_keeps_margin_witness :
  MARGIN + 20
  <= ERPTrainingDoc.y
       (draw_bullet Metric.fixed_pitch 595 blank (lit "to be") 15 BULLET) /\
  check_space
    (draw_bullet Metric.fixed_pitch 595 blank (lit "to be") 15 BULLET) 0
  = true.
Proof.
  apply (bullet_keeps_margin Metric.fixed_pitch 595 blank (lit "to be") 15
           BULLET).
  reflexivity.
Defined.
